(** * clio: the [amm_info] handler and the configuration-key tokenizer

    A shallow embedding of
    - [src/util/config/detail/Helpers.h]   (class [Tokenizer]),
    - [src/rpc/AMMHelpers.cpp]             ([getAmmPoolHolds], [getAmmLpHolds]),
    - [src/rpc/handlers/AMMInfo.cpp]       ([AMMInfoHandler::process] and the
                                            two [tag_invoke] conversions),
    followed by the properties established about them. *)

From Stdlib Require Import ZArith List String Ascii Bool Lia DecimalString.
Import ListNotations.

Local Open Scope string_scope.
Local Open Scope list_scope.

Set Warnings "-register-all".

(* ===================================================================== *)
(** * Part I.  [util::detail::Tokenizer]                                  *)
(* ===================================================================== *)

Module Config.

(** [struct KeyException : std::logic_error], carrying its message. *)
Inductive KeyException : Type :=
| mkKeyException (msg : string).

(** The three data members of [Tokenizer<std::string, Separator>];
    [tokens_] is the [std::queue], front first. *)
Record Tokenizer : Type := mkTokenizer {
  key_    : string;
  token_  : string;
  tokens_ : list string
}.

Definition empty (s : string) : bool :=
  match s with
  | EmptyString => true
  | String _ _ => false
  end.

(** [saveToken()]: throws on an empty pending token, otherwise pushes it
    to the back of the queue and resets it. *)
Definition saveToken (t : Tokenizer) : KeyException + Tokenizer :=
  if empty (token_ t)
  then inl (mkKeyException ("Empty token in key '" ++ key_ t ++ "'."))
  else inr {| key_ := key_ t;
              token_ := EmptyString;
              tokens_ := tokens_ t ++ [token_ t] |}.

(** The body of [for (auto const& c : key)]. *)
Fixpoint scan (Separator : ascii) (cs : string) (t : Tokenizer)
  : KeyException + Tokenizer :=
  match cs with
  | EmptyString => inr t
  | String c cs' =>
      if Ascii.eqb c Separator
      then match saveToken t with
           | inl e => inl e
           | inr t' => scan Separator cs' t'
           end
      else scan Separator cs'
             {| key_ := key_ t;
                token_ := token_ t ++ String c EmptyString;
                tokens_ := tokens_ t |}
  end.

(** [explicit Tokenizer(KeyType key)]; [inl] is the exception thrown. *)
Definition construct (Separator : ascii) (key : string)
  : KeyException + Tokenizer :=
  if empty key
  then inl (mkKeyException "Empty key")
  else match scan Separator key
               {| key_ := key; token_ := EmptyString; tokens_ := [] |} with
       | inl e => inl e
       | inr t => saveToken t
       end.

(** [next()]: the returned optional and the tokenizer afterwards. *)
Definition next (t : Tokenizer) : option string * Tokenizer :=
  match tokens_ t with
  | [] => (None, t)
  | token :: rest =>
      (Some token,
       {| key_ := key_ t; token_ := token_ t; tokens_ := rest |})
  end.

(** The results of [n] successive calls of [next()]. *)
Fixpoint calls (n : nat) (t : Tokenizer) : list (option string) :=
  match n with
  | O => []
  | S n' => let (r, t') := next t in r :: calls n' t'
  end.

(** Reference definition, independent of the class: the
    separator-delimited segments of a key, left to right.
    A key with [k] separators has [k + 1] segments, some possibly empty. *)
Fixpoint segments (Separator : ascii) (s : string) : list string :=
  match s with
  | EmptyString => [EmptyString]
  | String c s' =>
      if Ascii.eqb c Separator
      then EmptyString :: segments Separator s'
      else match segments Separator s' with
           | [] => [String c EmptyString]
           | seg :: rest => String c seg :: rest
           end
  end.

(** Whether a character occurs in a string. *)
Fixpoint has_char (c : ascii) (s : string) : bool :=
  match s with
  | EmptyString => false
  | String d s' => Ascii.eqb d c || has_char c s'
  end.

(** The number of occurrences of a character in a string. *)
Fixpoint count_char (c : ascii) (s : string) : nat :=
  match s with
  | EmptyString => O
  | String d s' => (if Ascii.eqb d c then 1 else 0) + count_char c s'
  end.

(** The tokens obtained by calling [next()] until it answers [nullopt],
    giving up after [n] calls. *)
Fixpoint collect (n : nat) (t : Tokenizer) : list string :=
  match n with
  | O => []
  | S n' =>
      match next t with
      | (Some token, t') => token :: collect n' t'
      | (None, _) => []
      end
  end.

(** The pending token glued in front of the segments still to come. *)
Definition glue (pending : string) (segs : list string) : list string :=
  match segs with
  | [] => [pending]
  | s :: rest => (pending ++ s)%string :: rest
  end.

End Config.

(* ===================================================================== *)
(** * Part II.  The ledger protocol types the handler works with          *)
(* ===================================================================== *)

Module Ripple.

Local Open Scope Z_scope.

(** [base_uint<160>] and [base_uint<256>] values, as unsigned integers. *)
Definition AccountID : Type := Z.
Definition Currency  : Type := Z.
Definition uint256   : Type := Z.
Definition Blob      : Type := list Byte.byte.

(** [xrpCurrency()] and [xrpAccount()] are the all-zero values
    ([beast::zero]); [isXRP(Currency)] tests for the former. *)
Definition xrpCurrency : Currency := 0.
Definition xrpAccount  : AccountID := 0.

Definition isXRP (c : Currency) : bool := c =? xrpCurrency.

Record Issue : Type := mkIssue {
  currency : Currency;
  account  : AccountID
}.

Definition xrpIssue : Issue :=
  {| currency := xrpCurrency; account := xrpAccount |}.

(** The numeric part of an amount: mantissa and decimal exponent. *)
Record Number : Type := mkNumber {
  mantissa : Z;
  exponent : Z
}.

(** [STAmount]: a value tagged with the asset it is denominated in. *)
Record STAmount : Type := mkSTAmount {
  issue : Issue;
  value : Number
}.

(** [isXRP(STAmount const&)]: the amount is native. *)
Definition isXRP_amount (a : STAmount) : bool := isXRP (currency (issue a)).

(** [boost::json::value]; an object keeps its members in insertion order. *)
Inductive json : Type :=
| JNull
| JBool   (b : bool)
| JInt64  (i : Z)
| JUInt64 (u : Z)
| JDouble (bits : Z)
| JString (s : string)
| JArray  (elems : list json)
| JObject (members : list (string * json)).

Definition object : Type := list (string * json).

Definition is_null (j : json) : bool :=
  match j with JNull => true | _ => false end.

(** [obj.contains(key)] *)
Definition contains (o : object) (key : string) : bool :=
  existsb (fun kv => String.eqb (fst kv) key) o.

(** [obj.at(key)]; [None] when [std::out_of_range] is thrown. *)
Fixpoint at_key (o : object) (key : string) : option json :=
  match o with
  | [] => None
  | (k, v) :: o' => if String.eqb k key then Some v else at_key o' key
  end.

(** [obj[key] = v]: overwrite the member, or append a new one. *)
Fixpoint set_key (o : object) (key : string) (v : json) : object :=
  match o with
  | [] => [(key, v)]
  | (k, v') :: o' =>
      if String.eqb k key then (k, v) :: o'
      else (k, v') :: set_key o' key v
  end.

(** Entries of an [sfVoteSlots] array. *)
Record VoteEntry : Type := mkVoteEntry {
  vote_sfAccount    : AccountID;
  vote_sfTradingFee : Z;
  vote_sfVoteWeight : Z
}.

(** The [sfAuctionSlot] inner object.  The fields whose presence the
    handler tests are optional; the others are read unconditionally. *)
Record AuctionSlot : Type := mkAuctionSlot {
  slot_sfAccount       : option AccountID;
  slot_sfPrice         : STAmount;
  slot_sfDiscountedFee : Z;
  slot_sfExpiration    : Z;
  slot_sfAuthAccounts  : option (list AccountID)
}.

(** A deserialized AMM ledger entry ([ripple::SLE]). *)
Record SLE : Type := mkSLE {
  sfAccount        : AccountID;
  sfAsset          : Issue;
  sfAsset2         : Issue;
  sfTradingFee     : Z;
  sfLPTokenBalance : STAmount;
  sfVoteSlots      : option (list VoteEntry);
  sfAuctionSlot    : option AuctionSlot
}.

(** [ripple::LedgerInfo] (the header fields the handler reads). *)
Record LedgerInfo : Type := mkLedgerInfo {
  seq             : Z;
  parentCloseTime : Z
}.

Inductive RippledError : Type :=
| rpcACT_NOT_FOUND
| rpcLGR_NOT_FOUND
| rpcNOT_READY
| rpcINVALID_PARAMS
| rpcOBJECT_NOT_FOUND.

(** [rpc::Status]: an error code and an optional message. *)
Record Status : Type := mkStatus {
  code    : RippledError;
  message : string
}.

Definition Status_of (e : RippledError) : Status :=
  {| code := e; message := EmptyString |}.

(** What the handler takes from the protocol library, the C++ standard
    library and the headers of other components.
    Each field is the function of that name with its reference parameters
    turned into results. *)
Record Protocol : Type := mkProtocol {
  (** [keylet::account(id).key] *)
  keylet_account : AccountID -> uint256;
  (** the digest behind [keylet::amm], over a canonically ordered pair *)
  ammIndexHash : AccountID -> Currency -> AccountID -> Currency -> uint256;
  (** the digest behind [ammLPTCurrency], over a canonically ordered pair *)
  lptCurrencyHash : Currency -> Currency -> Currency;
  (** [SLE{SerialIter{data, size}, key}]; [None] when it throws *)
  deserialize : Blob -> uint256 -> option SLE;
  (** [toBoostJson(amount.getJson(JsonOptions::none))] *)
  amountJson : STAmount -> json;
  (** [to_string(AccountID)] and [to_string(uint256)] *)
  accountToString : AccountID -> string;
  keyToString : uint256 -> string;
  (** [bool to_currency(Currency&, std::string const&)] *)
  to_currency : Currency -> string -> bool * Currency;
  (** [accountFromStringStrict] *)
  accountFromStringStrict : string -> option AccountID;
  (** [std::stoi]; [None] when it throws *)
  stoi : string -> option Z;
  (** [date::format(fmt, time_point)] on seconds since the Unix epoch *)
  date_format : string -> Z -> string;
  (** [rippleEpochStart] (data/DBHelpers.h) *)
  rippleEpochStart : Z;
  (** [AUCTION_SLOT_TIME_INTERVALS] and [AUCTION_SLOT_INTERVAL_DURATION]
      (ripple/protocol/AMMCore.h) *)
  AUCTION_SLOT_TIME_INTERVALS : Z;
  AUCTION_SLOT_INTERVAL_DURATION : Z
}.

(** Canonical order on asset identities: by currency, then by issuer. *)
Definition Issue_ltb (a b : Issue) : bool :=
  (currency a <? currency b)
  || ((currency a =? currency b) && (account a <? account b)).

(** [std::minmax(a, b)] for a strict order [ltb]. *)
Definition minmax {A : Type} (ltb : A -> A -> bool) (a b : A) : A * A :=
  if ltb b a then (b, a) else (a, b).

(** Modelled from the spec: [keylet::amm] belongs to the ledger protocol
    library and is not part of this repository.  Section 4.3 describes it
    as a pure function from two asset identities to the object key that is
    independent of argument order; it is modelled as the library's digest
    applied to the pair put in canonical order. *)
Definition keylet_amm (P : Protocol) (issue1 issue2 : Issue) : uint256 :=
  let (minI, maxI) := minmax Issue_ltb issue1 issue2 in
  ammIndexHash P (account minI) (currency minI) (account maxI) (currency maxI).

(** Modelled from the spec: [ammLPTCurrency] belongs to the ledger protocol
    library and is not part of this repository.  Section 4.5 describes it
    as a canonical, order-independent combination of the two currency
    codes; it is modelled as the library's digest applied to the two codes
    put in canonical order. *)
Definition ammLPTCurrency (P : Protocol) (cur1 cur2 : Currency) : Currency :=
  let (minC, maxC) := minmax Z.ltb cur1 cur2 in
  lptCurrencyHash P minC maxC.

(** The start of the slot's active window: the expiration minus the whole
    window of [AUCTION_SLOT_TIME_INTERVALS] sub-intervals. *)
Definition slotStart (P : Protocol) (auctionSlot : AuctionSlot) : Z :=
  slot_sfExpiration auctionSlot
  - AUCTION_SLOT_TIME_INTERVALS P * AUCTION_SLOT_INTERVAL_DURATION P.

(** The zero-based sub-interval index of Section 4.6, a floor division. *)
Definition slotIndex (P : Protocol) (current : Z) (auctionSlot : AuctionSlot) : Z :=
  (current - slotStart P auctionSlot) / AUCTION_SLOT_INTERVAL_DURATION P.

(** Modelled from the spec: [ammAuctionTimeSlot] belongs to the ledger
    protocol library and is not part of this repository.  Section 4.6:
    the window is divided into [AUCTION_SLOT_TIME_INTERVALS] equal
    sub-intervals and the zero-based index is
    [floor((parentCloseTime - slotStart) / subIntervalDuration)]; outside
    the window the "no active interval" sentinel ([None]) is returned.
    Section 8: a close time after the end of the window yields the
    sentinel.  The indices of the window are therefore
    [0 .. AUCTION_SLOT_TIME_INTERVALS - 1]. *)
Definition ammAuctionTimeSlot (P : Protocol) (current : Z) (auctionSlot : AuctionSlot)
  : option Z :=
  let index := slotIndex P current auctionSlot in
  if (index <? 0) || (AUCTION_SLOT_TIME_INTERVALS P <=? index)
  then None
  else Some index.

End Ripple.

(* ===================================================================== *)
(** * Part III.  The backend, the read log and the RPC helpers            *)
(* ===================================================================== *)

Module Backend.

Import Ripple.
Local Open Scope Z_scope.

(** [data::LedgerRange] *)
Record LedgerRange : Type := mkLedgerRange {
  minSequence : Z;
  maxSequence : Z
}.

(** The part of [BackendInterface] the handler calls.  The store is
    read-only here, so a fetch is a function of its arguments. *)
Record BackendInterface : Type := mkBackend {
  fetchLedgerRange  : option LedgerRange;
  fetchLedgerObject : uint256 -> Z -> option Blob
}.

(** The free functions of [rpc/RPCHelpers.cpp] the handler relies on,
    each taking the backend it reads from. *)
Record RPCHelpers : Type := mkRPCHelpers {
  (** [getLedgerInfoFromHashOrSeq(backend, yield, hash, index, maxSeq)],
      a [std::variant<Status, LedgerInfo>] *)
  getLedgerInfoFromHashOrSeq :
    BackendInterface -> option string -> option Z -> Z -> Status + LedgerInfo;
  (** the liquid native balance of an account at a sequence *)
  xrpLiquid : BackendInterface -> Z -> AccountID -> Number;
  (** the trust-line balance of an account at a sequence *)
  lineBalance :
    BackendInterface -> Z -> AccountID -> Currency -> AccountID -> bool -> Number;
  (** [isFrozen(backend, sequence, account, currency, issuer, yield)] *)
  isFrozen : BackendInterface -> Z -> AccountID -> Currency -> AccountID -> bool
}.

(** Modelled from the spec: [accountHolds] is defined in
    [rpc/RPCHelpers.cpp], outside the handler's own files.  Section 4.5:
    native-asset holdings are read from the account's direct balance,
    issued-asset holdings from the trust-line object; Section 3: an
    Amount is tagged with its asset identity, the native one being the
    reserved sentinel. *)
Definition accountHolds (H : RPCHelpers) (backend : BackendInterface)
    (sequence : Z) (account : AccountID) (currency : Currency)
    (issuer : AccountID) (zeroIfFrozen : bool) : STAmount :=
  if isXRP currency
  then {| issue := xrpIssue; value := xrpLiquid H backend sequence account |}
  else {| issue := {| Ripple.currency := currency; Ripple.account := issuer |};
          value := lineBalance H backend sequence account currency issuer zeroIfFrozen |}.

(** One entry of the read log per call that reaches the backend. *)
Inductive Read : Type :=
| RdLedgerRange
| RdLedgerInfo (ledgerHash : option string) (ledgerIndex : option Z) (maxSeq : Z)
| RdObject (key : uint256) (sequence : Z)
| RdAccountHolds (sequence : Z) (account : AccountID) (currency : Currency)
                 (issuer : AccountID) (zeroIfFrozen : bool)
| RdIsFrozen (sequence : Z) (account : AccountID) (currency : Currency)
             (issuer : AccountID).

(** The ledger sequence a read is pinned to, for the reads that take one. *)
Definition read_sequence (r : Read) : option Z :=
  match r with
  | RdLedgerRange => None
  | RdLedgerInfo _ _ _ => None
  | RdObject _ s => Some s
  | RdAccountHolds s _ _ _ _ => Some s
  | RdIsFrozen s _ _ _ => Some s
  end.

(** How a computation of the handler ends. *)
Inductive Res (A : Type) : Type :=
| Ok (a : A)               (* runs to completion with a value *)
| Error (status : Status)  (* [return Error{status}] *)
| Thrown                   (* an exception leaves the handler *)
| Undefined.               (* behaviour the language leaves undefined *)

Arguments Ok {A} a.
Arguments Error {A} status.
Arguments Thrown {A}.
Arguments Undefined {A}.

(** A computation: the reads it issued, in order, and how it ended. *)
Definition M (A : Type) : Type := list Read * Res A.

Definition ret {A : Type} (a : A) : M A := ([], Ok a).

Definition bind {A B : Type} (m : M A) (k : A -> M B) : M B :=
  match m with
  | (log, Ok a) => let (log', r) := k a in (log ++ log', r)
  | (log, Error status) => (log, Error status)
  | (log, Thrown) => (log, Thrown)
  | (log, Undefined) => (log, Undefined)
  end.

Definition fail {A : Type} (status : Status) : M A := ([], Error status).
Definition throw {A : Type} : M A := ([], Thrown).
Definition undefined {A : Type} : M A := ([], Undefined).

(** A backend call: logged, then answered. *)
Definition read {A : Type} (r : Read) (answer : A) : M A := ([r], Ok answer).

Declare Scope handler_scope.
Delimit Scope handler_scope with handler.

Notation "x <- m ;; k" := (bind m (fun x => k))
  (at level 61, m at next level, right associativity) : handler_scope.
Notation "' pat <- m ;; k" := (bind m (fun x => match x with pat => k end))
  (at level 61, pat pattern, m at next level, right associativity) : handler_scope.

End Backend.

(* ===================================================================== *)
(** * Part IV.  [rpc/AMMHelpers.cpp] and [rpc/handlers/AMMInfo.cpp]       *)
(* ===================================================================== *)

Module AMMInfo.

Import Ripple Backend.
Local Open Scope Z_scope.
Local Open Scope handler_scope.

(** [AMMInfoHandler::Input] *)
Record Input : Type := mkInput {
  ledgerHash  : option string;
  ledgerIndex : option Z;
  issue1      : Issue;
  issue2      : Issue;
  accountID   : option AccountID
}.

(** [AMMInfoHandler::Output]; [auctionSlot] is a JSON value that stays
    null until the handler assigns it. *)
Record Output : Type := mkOutput {
  amount1      : json;
  amount2      : json;
  lpToken      : json;
  voteSlots    : list json;
  auctionSlot  : json;
  tradingFee   : Z;
  ammAccount   : string;
  ammID        : string;
  asset1Frozen : option bool;
  asset2Frozen : option bool;
  ledgerIndex_ : Z;
  validated    : bool
}.

(** The in-class initialiser of [Output::validated]. *)
Definition validated_default : bool := true.

(** [std::string(s.c_str())]: the characters before the first NUL. *)
Fixpoint c_str (s : string) : string :=
  match s with
  | EmptyString => EmptyString
  | String c s' =>
      if Ascii.eqb c Ascii.zero then EmptyString else String c (c_str s')
  end.

(** Conversion of an integer to [std::uint32_t]. *)
Definition to_uint32 (i : Z) : Z := i mod 2 ^ 32.

Section Handler.

Variable P : Protocol.
Variable H : RPCHelpers.
Variable backend : BackendInterface.

(** ** The backend calls, logged *)

Definition fetchLedgerRangeM : M (option LedgerRange) :=
  read RdLedgerRange (fetchLedgerRange backend).

Definition fetchLedgerObjectM (key : uint256) (sequence : Z) : M (option Blob) :=
  read (RdObject key sequence) (fetchLedgerObject backend key sequence).

Definition getLedgerInfoFromHashOrSeqM
    (hash : option string) (index : option Z) (maxSeq : Z)
  : M (Status + LedgerInfo) :=
  read (RdLedgerInfo hash index maxSeq)
       (getLedgerInfoFromHashOrSeq H backend hash index maxSeq).

Definition accountHoldsM (sequence : Z) (account : AccountID)
    (currency : Currency) (issuer : AccountID) (zeroIfFrozen : bool)
  : M STAmount :=
  read (RdAccountHolds sequence account currency issuer zeroIfFrozen)
       (accountHolds H backend sequence account currency issuer zeroIfFrozen).

Definition isFrozenM (sequence : Z) (account : AccountID)
    (currency : Currency) (issuer : AccountID) : M bool :=
  read (RdIsFrozen sequence account currency issuer)
       (isFrozen H backend sequence account currency issuer).

(** [opt->member] on a [std::optional]: undefined when it is empty. *)
Definition deref {A : Type} (o : option A) : M A :=
  match o with
  | Some a => ret a
  | None => undefined
  end.

(** ** [rpc/AMMHelpers.cpp] *)

Definition getAmmPoolHolds (sequence : Z) (ammAccountID : AccountID)
    (issue1 issue2 : Issue) : M (STAmount * STAmount) :=
  assetInBalance <-
    accountHoldsM sequence ammAccountID (currency issue1) (account issue1) true ;;
  assetOutBalance <-
    accountHoldsM sequence ammAccountID (currency issue2) (account issue2) true ;;
  ret (assetInBalance, assetOutBalance).

(** The overload taking the two currencies. *)
Definition getAmmLpHolds_currencies (sequence : Z) (cur1 cur2 : Currency)
    (ammAccount lpAccount : AccountID) : M STAmount :=
  let lptCurrency := ammLPTCurrency P cur1 cur2 in
  accountHoldsM sequence lpAccount lptCurrency ammAccount true.

(** The overload taking the AMM ledger entry. *)
Definition getAmmLpHolds (sequence : Z) (ammSle : SLE) (lpAccount : AccountID)
  : M STAmount :=
  getAmmLpHolds_currencies sequence
    (currency (sfAsset ammSle)) (currency (sfAsset2 ammSle))
    (sfAccount ammSle) lpAccount.

(** ** [rpc/handlers/AMMInfo.cpp] *)

Definition to_iso8601 (tp : Z) : string :=
  date_format P "%Y-%Om-%dT%H:%M:%OS%z" (tp + rippleEpochStart P).

(** One element of [response.voteSlots]. *)
Definition voteJson (voteEntry : VoteEntry) : json :=
  let vote : object := [] in
  let vote := set_key vote "account"
                (JString (accountToString P (vote_sfAccount voteEntry))) in
  let vote := set_key vote "trading_fee" (JUInt64 (vote_sfTradingFee voteEntry)) in
  let vote := set_key vote "vote_weight" (JUInt64 (vote_sfVoteWeight voteEntry)) in
  JObject vote.

(** The [if (amm.isFieldPresent(sfVoteSlots))] block. *)
Definition voteSlotsJson (amm : SLE) : list json :=
  match sfVoteSlots amm with
  | Some entries => map voteJson entries
  | None => []
  end.

(** [timeSlot ? *timeSlot : AUCTION_SLOT_TIME_INTERVALS] *)
Definition time_interval (parentCloseTime : Z) (auctionSlot : AuctionSlot) : Z :=
  match ammAuctionTimeSlot P parentCloseTime auctionSlot with
  | Some timeSlot => timeSlot
  | None => AUCTION_SLOT_TIME_INTERVALS P
  end.

(** The body of [if (auctionSlot.isFieldPresent(sfAccount))]. *)
Definition auctionJson (lgrInfo : LedgerInfo) (auctionSlot : AuctionSlot)
    (slotAccount : AccountID) : json :=
  let auction : object := [] in
  let auction := set_key auction "time_interval"
                   (JUInt64 (time_interval (parentCloseTime lgrInfo) auctionSlot)) in
  let auction := set_key auction "price" (amountJson P (slot_sfPrice auctionSlot)) in
  let auction := set_key auction "discounted_fee"
                   (JUInt64 (slot_sfDiscountedFee auctionSlot)) in
  let auction := set_key auction "account"
                   (JString (accountToString P slotAccount)) in
  let auction := set_key auction "expiration"
                   (JString (to_iso8601 (slot_sfExpiration auctionSlot))) in
  let auction :=
    match slot_sfAuthAccounts auctionSlot with
    | Some accts =>
        let auth :=
          map (fun acct => JObject [("account", JString (accountToString P acct))])
              accts in
        set_key auction "auth_accounts" (JArray auth)
    | None => auction
    end in
  JObject auction.

(** The [if (amm.isFieldPresent(sfAuctionSlot))] block: the value of
    [response.auctionSlot] after it. *)
Definition auctionSlotJson (lgrInfo : LedgerInfo) (amm : SLE) : json :=
  match sfAuctionSlot amm with
  | Some auctionSlot =>
      match slot_sfAccount auctionSlot with
      | Some slotAccount => auctionJson lgrInfo auctionSlot slotAccount
      | None => JNull
      end
  | None => JNull
  end.

(** [AMMInfoHandler::process] *)
Definition process (input : Input) : M Output :=
  range <- fetchLedgerRangeM ;;
  range <- deref range ;;
  lgrInfoOrStatus <-
    getLedgerInfoFromHashOrSeqM
      (ledgerHash input) (ledgerIndex input) (maxSequence range) ;;
  match lgrInfoOrStatus with
  | inl status => fail status
  | inr lgrInfo =>
    _ <- match accountID input with
         | Some id =>
             accountObject <-
               fetchLedgerObjectM (keylet_account P id) (seq lgrInfo) ;;
             match accountObject with
             | None => fail (Status_of rpcACT_NOT_FOUND)
             | Some _ => ret tt
             end
         | None => ret tt
         end ;;
    let ammKeylet := keylet_amm P (issue1 input) (issue2 input) in
    ammBlob <- fetchLedgerObjectM ammKeylet (seq lgrInfo) ;;
    match ammBlob with
    | None => fail (Status_of rpcACT_NOT_FOUND)
    | Some ammBlob =>
      amm <- match deserialize P ammBlob ammKeylet with
             | Some sle => ret sle
             | None => throw
             end ;;
      let accID := sfAccount amm in
      accBlob <- fetchLedgerObjectM (keylet_account P accID) (seq lgrInfo) ;;
      match accBlob with
      | None => fail (Status_of rpcACT_NOT_FOUND)
      | Some _ =>
        '(asset1Balance, asset2Balance) <-
          getAmmPoolHolds (seq lgrInfo) accID (issue1 input) (issue2 input) ;;
        lptAMMBalance <-
          match accountID input with
          | Some id => getAmmLpHolds (seq lgrInfo) amm id
          | None => ret (sfLPTokenBalance amm)
          end ;;
        frozen1 <-
          (if negb (isXRP_amount asset1Balance)
           then b <- isFrozenM (seq lgrInfo) accID
                       (currency (issue1 input)) (account (issue1 input)) ;;
                ret (Some b)
           else ret None) ;;
        frozen2 <-
          (if negb (isXRP_amount asset2Balance)
           then b <- isFrozenM (seq lgrInfo) accID
                       (currency (issue2 input)) (account (issue2 input)) ;;
                ret (Some b)
           else ret None) ;;
        ret {| amount1 := amountJson P asset1Balance;
               amount2 := amountJson P asset2Balance;
               lpToken := amountJson P lptAMMBalance;
               voteSlots := voteSlotsJson amm;
               auctionSlot := auctionSlotJson lgrInfo amm;
               tradingFee := sfTradingFee amm;
               ammAccount := accountToString P accID;
               ammID := keyToString P ammKeylet;
               asset1Frozen := frozen1;
               asset2Frozen := frozen2;
               ledgerIndex_ := seq lgrInfo;
               validated := validated_default |}
      end
    end
  end.

(** [tag_invoke(value_from_tag, jv, Output const&)]: the members of the
    nested [amm] object. *)
Definition ammObject (output : Output) : object :=
  let amm : object :=
    [ ("lp_token", lpToken output);
      ("amount", amount1 output);
      ("amount2", amount2 output);
      ("account", JString (ammAccount output));
      ("trading_fee", JUInt64 (tradingFee output)) ] in
  let amm :=
    if negb (is_null (auctionSlot output))
    then set_key amm "auction_slot" (auctionSlot output) else amm in
  let amm :=
    match voteSlots output with
    | [] => amm
    | _ :: _ => set_key amm "vote_slots" (JArray (voteSlots output))
    end in
  let amm :=
    match asset1Frozen output with
    | Some frozen => set_key amm "asset_frozen" (JBool frozen)
    | None => amm
    end in
  let amm :=
    match asset2Frozen output with
    | Some frozen => set_key amm "asset2_frozen" (JBool frozen)
    | None => amm
    end in
  amm.

(** [tag_invoke(value_from_tag, jv, Output const&)] *)
Definition Output_to_json (output : Output) : json :=
  JObject
    [ ("amm", JObject (ammObject output));
      ("ledger_index", JUInt64 (ledgerIndex_ output));
      ("validated", JBool (validated output)) ].

(** The lambda [getIssue] of the request conversion; [None] when a JSON
    accessor throws. *)
Definition getIssue (request : json) : option Issue :=
  let issue := xrpIssue in
  match request with
  | JObject members =>
      match at_key members "currency" with
      | Some (JString currency) =>
          let (_, cur) := to_currency P (Ripple.currency issue) (c_str currency) in
          Some {| Ripple.currency := cur; Ripple.account := Ripple.account issue |}
      | _ => None
      end
  | _ => None
  end.

(** The [ledger_index] branch of the request conversion. *)
Definition getLedgerIndex (jsonObject : object) : option (option Z) :=
  if contains jsonObject "ledger_index"
  then match at_key jsonObject "ledger_index" with
       | Some (JString s) =>
           if negb (String.eqb s "validated")
           then match stoi P (c_str s) with
                | Some i => Some (Some (to_uint32 i))
                | None => None
                end
           else Some None
       | Some (JInt64 i) => Some (Some (to_uint32 i))
       | _ => None
       end
  else Some None.

(** [tag_invoke(value_to_tag<Input>, jv)]; [None] when it throws. *)
Definition Input_from_json (jv : json) : option Input :=
  match jv with
  | JObject jsonObject =>
      match (if contains jsonObject "ledger_hash"
             then match at_key jsonObject "ledger_hash" with
                  | Some (JString s) => Some (Some (c_str s))
                  | _ => None
                  end
             else Some None) with
      | None => None
      | Some hash =>
        match getLedgerIndex jsonObject with
        | None => None
        | Some index =>
          match at_key jsonObject "asset" with
          | None => None
          | Some asset =>
            match getIssue asset with
            | None => None
            | Some i1 =>
              match at_key jsonObject "asset2" with
              | None => None
              | Some asset2 =>
                match getIssue asset2 with
                | None => None
                | Some i2 =>
                  match (if contains jsonObject "account"
                         then match at_key jsonObject "account" with
                              | Some (JString s) =>
                                  Some (accountFromStringStrict P (c_str s))
                              | _ => None
                              end
                         else Some None) with
                  | None => None
                  | Some acct =>
                      Some {| ledgerHash := hash;
                              ledgerIndex := index;
                              issue1 := i1;
                              issue2 := i2;
                              accountID := acct |}
                  end
                end
              end
            end
          end
        end
      end
  | _ => None
  end.

(** ** The run of [process] that reaches its last line

    The reads and the response of a run of [process] for which the range is
    known, the header [lgrInfo] is resolved and the entry [amm] is decoded,
    spelled out for the statements below. *)

Definition accountCheckReads (input : Input) (lgrInfo : LedgerInfo) : list Read :=
  match accountID input with
  | Some id => [RdObject (keylet_account P id) (seq lgrInfo)]
  | None => []
  end.

Definition objectReads (input : Input) (lgrInfo : LedgerInfo) (amm : SLE)
  : list Read :=
  [ RdObject (keylet_amm P (issue1 input) (issue2 input)) (seq lgrInfo);
    RdObject (keylet_account P (sfAccount amm)) (seq lgrInfo) ].

Definition poolHoldsReads (input : Input) (lgrInfo : LedgerInfo) (amm : SLE)
  : list Read :=
  [ RdAccountHolds (seq lgrInfo) (sfAccount amm)
      (currency (issue1 input)) (account (issue1 input)) true;
    RdAccountHolds (seq lgrInfo) (sfAccount amm)
      (currency (issue2 input)) (account (issue2 input)) true ].

Definition lpHoldsRead (lgrInfo : LedgerInfo) (amm : SLE) (holder : AccountID)
  : Read :=
  RdAccountHolds (seq lgrInfo) holder
    (ammLPTCurrency P (currency (sfAsset amm)) (currency (sfAsset2 amm)))
    (sfAccount amm) true.

Definition lpHoldsReads (input : Input) (lgrInfo : LedgerInfo) (amm : SLE)
  : list Read :=
  match accountID input with
  | Some id => [lpHoldsRead lgrInfo amm id]
  | None => []
  end.

Definition frozenRead (lgrInfo : LedgerInfo) (amm : SLE) (i : Issue) : list Read :=
  if isXRP (currency i) then []
  else [RdIsFrozen (seq lgrInfo) (sfAccount amm) (currency i) (account i)].

Definition frozenReads (input : Input) (lgrInfo : LedgerInfo) (amm : SLE)
  : list Read :=
  frozenRead lgrInfo amm (issue1 input) ++ frozenRead lgrInfo amm (issue2 input).

Definition successReads (input : Input) (range : LedgerRange)
    (lgrInfo : LedgerInfo) (amm : SLE) : list Read :=
  [ RdLedgerRange;
    RdLedgerInfo (ledgerHash input) (ledgerIndex input) (maxSequence range) ]
  ++ accountCheckReads input lgrInfo
  ++ objectReads input lgrInfo amm
  ++ poolHoldsReads input lgrInfo amm
  ++ lpHoldsReads input lgrInfo amm
  ++ frozenReads input lgrInfo amm.

Definition frozenFlag (lgrInfo : LedgerInfo) (amm : SLE) (i : Issue) : option bool :=
  if isXRP (currency i) then None
  else Some (isFrozen H backend (seq lgrInfo) (sfAccount amm) (currency i) (account i)).

Definition lpTokenAmount (input : Input) (lgrInfo : LedgerInfo) (amm : SLE)
  : STAmount :=
  match accountID input with
  | Some id =>
      accountHolds H backend (seq lgrInfo) id
        (ammLPTCurrency P (currency (sfAsset amm)) (currency (sfAsset2 amm)))
        (sfAccount amm) true
  | None => sfLPTokenBalance amm
  end.

Definition successOutput (input : Input) (lgrInfo : LedgerInfo) (amm : SLE)
  : Output :=
  {| amount1 :=
       amountJson P (accountHolds H backend (seq lgrInfo) (sfAccount amm)
                       (currency (issue1 input)) (account (issue1 input)) true);
     amount2 :=
       amountJson P (accountHolds H backend (seq lgrInfo) (sfAccount amm)
                       (currency (issue2 input)) (account (issue2 input)) true);
     lpToken := amountJson P (lpTokenAmount input lgrInfo amm);
     voteSlots := voteSlotsJson amm;
     auctionSlot := auctionSlotJson lgrInfo amm;
     tradingFee := sfTradingFee amm;
     ammAccount := accountToString P (sfAccount amm);
     ammID := keyToString P (keylet_amm P (issue1 input) (issue2 input));
     asset1Frozen := frozenFlag lgrInfo amm (issue1 input);
     asset2Frozen := frozenFlag lgrInfo amm (issue2 input);
     ledgerIndex_ := seq lgrInfo;
     validated := validated_default |}.

(** The request with [asset] and [asset2] exchanged. *)
Definition swapAssets (input : Input) : Input :=
  {| ledgerHash := ledgerHash input;
     ledgerIndex := ledgerIndex input;
     issue1 := issue2 input;
     issue2 := issue1 input;
     accountID := accountID input |}.

(** Whether the nested [amm] object of a serialized response has a member. *)
Definition amm_has (jv : json) (key : string) : bool :=
  match jv with
  | JObject top =>
      match at_key top "amm" with
      | Some (JObject amm) => contains amm key
      | _ => false
      end
  | _ => false
  end.

End Handler.

(** ** Reading a serialized response *)

(** A member of the top-level object of a JSON value. *)
Definition top_at (jv : json) (key : string) : option json :=
  match jv with
  | JObject top => at_key top key
  | _ => None
  end.

(** A member of the nested [amm] object of a serialized response. *)
Definition amm_at (jv : json) (key : string) : option json :=
  match top_at jv "amm" with
  | Some (JObject amm) => at_key amm key
  | _ => None
  end.

(** The reads that [accountHolds] and [isFrozen] make. *)
Definition is_balance_read (r : Read) : bool :=
  match r with
  | RdAccountHolds _ _ _ _ _ => true
  | RdIsFrozen _ _ _ _ => true
  | _ => false
  end.

(** The request without its account filter. *)
Definition withoutAccount (input : Input) : Input :=
  {| ledgerHash := ledgerHash input;
     ledgerIndex := ledgerIndex input;
     issue1 := issue1 input;
     issue2 := issue2 input;
     accountID := None |}.

(** The response with another [ammID]. *)
Definition with_ammID (output : Output) (id : string) : Output :=
  {| amount1 := amount1 output;
     amount2 := amount2 output;
     lpToken := lpToken output;
     voteSlots := voteSlots output;
     auctionSlot := auctionSlot output;
     tradingFee := tradingFee output;
     ammAccount := ammAccount output;
     ammID := id;
     asset1Frozen := asset1Frozen output;
     asset2Frozen := asset2Frozen output;
     ledgerIndex_ := ledgerIndex_ output;
     validated := validated output |}.

End AMMInfo.

(* ===================================================================== *)
(** * Part V.  A small ledger to run the handler on                       *)
(* ===================================================================== *)

Module Fixture.

Import Ripple Backend AMMInfo.
Local Open Scope Z_scope.

Definition decimal (z : Z) : string :=
  DecimalString.NilZero.string_of_int (Z.to_int z).

Definition USD : Currency := 1431520256.
Definition issuerAccount : AccountID := 900.
Definition poolAccount : AccountID := 77.
Definition holderAccount : AccountID := 501.
Definition bidderAccount : AccountID := 640.

Definition usdIssue : Issue := {| currency := USD; account := issuerAccount |}.

(** Three-letter codes are packed from their characters; the empty code
    and ["XRP"] give the native currency. *)
Definition currencyOfCode (cur : Currency) (code : string) : bool * Currency :=
  if String.eqb code EmptyString || String.eqb code "XRP" then (true, xrpCurrency)
  else match code with
       | String a (String b (String c EmptyString)) =>
           (true, ((Z.of_nat (nat_of_ascii a) * 256 + Z.of_nat (nat_of_ascii b)) * 256
                   + Z.of_nat (nat_of_ascii c)) * 256)
       | _ => (false, cur)
       end.

Definition lpBalance : STAmount :=
  {| issue := {| currency := 3 * 2 ^ 152 + 9; account := poolAccount |};
     value := {| mantissa := 1000000000000000; exponent := -9 |} |}.

Definition slotPrice : STAmount :=
  {| issue := issue lpBalance;
     value := {| mantissa := 1000000000000000; exponent := -14 |} |}.

(** A slot whose window is [[0, 86400)] in ledger time. *)
Definition ammSlot : AuctionSlot :=
  {| slot_sfAccount := Some bidderAccount;
     slot_sfPrice := slotPrice;
     slot_sfDiscountedFee := 60;
     slot_sfExpiration := 86400;
     slot_sfAuthAccounts := Some [holderAccount] |}.

(** The same slot as stored before anyone has bid: no [sfAccount]. *)
Definition vacantSlot : AuctionSlot :=
  {| slot_sfAccount := None;
     slot_sfPrice := slotPrice;
     slot_sfDiscountedFee := 0;
     slot_sfExpiration := 86400;
     slot_sfAuthAccounts := None |}.

Definition ammEntry (slot : option AuctionSlot) : SLE :=
  {| sfAccount := poolAccount;
     sfAsset := usdIssue;
     sfAsset2 := xrpIssue;
     sfTradingFee := 600;
     sfLPTokenBalance := lpBalance;
     sfVoteSlots := Some [ {| vote_sfAccount := holderAccount;
                              vote_sfTradingFee := 600;
                              vote_sfVoteWeight := 100000 |} ];
     sfAuctionSlot := slot |}.

Definition protocol : Protocol :=
  {| keylet_account := fun a => 1000 + a;
     ammIndexHash := fun a c a' c' => 5000 + a + 3 * c + 7 * a' + 11 * c';
     lptCurrencyHash := fun c1 c2 => 3 * 2 ^ 152 + (31 * c1 + c2) mod 2 ^ 152;
     deserialize := fun blob _ =>
       match blob with
       | [Byte.x01] => Some (ammEntry (Some ammSlot))
       | [Byte.x02] => Some (ammEntry (Some vacantSlot))
       | [Byte.x03] => Some (ammEntry None)
       | _ => None
       end;
     amountJson := fun a =>
       if isXRP_amount a then JString (decimal (mantissa (value a)))
       else JObject [ ("currency", JString (decimal (currency (issue a))));
                      ("issuer", JString (decimal (account (issue a))));
                      ("value", JString (decimal (mantissa (value a)) ++ "e"
                                         ++ decimal (exponent (value a)))%string) ];
     accountToString := fun a => ("r" ++ decimal a)%string;
     keyToString := decimal;
     to_currency := currencyOfCode;
     accountFromStringStrict := fun s =>
       if String.eqb s "rHolder" then Some holderAccount
       else if String.eqb s "rIssuer" then Some issuerAccount
       else None;
     stoi := fun s =>
       match DecimalString.NilZero.int_of_string s with
       | Some i => Some (Z.of_int i)
       | None => None
       end;
     date_format := fun _ t => decimal t;
     rippleEpochStart := 946684800;
     AUCTION_SLOT_TIME_INTERVALS := 20;
     AUCTION_SLOT_INTERVAL_DURATION := 4320 |}.

(** A store whose known range is [[1, 100]] and that holds, at sequence
    100, the account root of [holderAccount], the AMM entry of the pair
    (USD, XRP) stored as [ammBlob], and the AMM's own account root. *)
Definition store (ammBlob : Blob) : BackendInterface :=
  {| fetchLedgerRange := Some {| minSequence := 1; maxSequence := 100 |};
     fetchLedgerObject := fun key sequence =>
       if negb (sequence =? 100) then None
       else if key =? keylet_account protocol holderAccount then Some [Byte.x00]
       else if key =? keylet_amm protocol usdIssue xrpIssue then Some ammBlob
       else if key =? keylet_account protocol poolAccount then Some [Byte.x00]
       else None |}.

Definition helpers : RPCHelpers :=
  {| getLedgerInfoFromHashOrSeq := fun backend hash index maxSeq =>
       match fetchLedgerRange backend with
       | None => inl (Status_of rpcNOT_READY)
       | Some range =>
           let s := match index with Some i => i | None => maxSeq end in
           if (minSequence range <=? s) && (s <=? maxSeq)
           then inr {| seq := s; parentCloseTime := 43200 |}
           else inl (Status_of rpcLGR_NOT_FOUND)
       end;
     xrpLiquid := fun _ _ _ => {| mantissa := 250000000; exponent := 0 |};
     lineBalance := fun _ _ _ _ _ _ =>
       {| mantissa := 5000000000000000; exponent := -13 |};
     isFrozen := fun _ _ _ _ _ => false |}.

Definition request (holder : option AccountID) : Input :=
  {| ledgerHash := None;
     ledgerIndex := None;
     issue1 := usdIssue;
     issue2 := xrpIssue;
     accountID := holder |}.

(** The same request for an explicit ledger index. *)
Definition requestAt (index : Z) : Input :=
  {| ledgerHash := None;
     ledgerIndex := Some index;
     issue1 := usdIssue;
     issue2 := xrpIssue;
     accountID := None |}.

(** A request for USD issued by ["rIssuer"] against the native asset, at
    the validated ledger, as JSON. *)
Definition requestJson : json :=
  JObject [ ("asset", JObject [ ("currency", JString "USD");
                                ("issuer", JString "rIssuer") ]);
            ("asset2", JObject [ ("currency", JString "XRP") ]);
            ("ledger_index", JString "validated") ].

(** A request for another pair of assets. *)
Definition requestPair (a b : Issue) (holder : option AccountID) : Input :=
  {| ledgerHash := None;
     ledgerIndex := None;
     issue1 := a;
     issue2 := b;
     accountID := holder |}.

(** The JSON request for USD against the native asset with further
    members after the two asset descriptors. *)
Definition requestJsonWith (members : list (string * json)) : json :=
  JObject ([ ("asset", JObject [ ("currency", JString "USD") ]);
             ("asset2", JObject [ ("currency", JString "XRP") ]) ]
           ++ members).

End Fixture.

(* ===================================================================== *)
(** * Part VI.  Properties of the tokenizer                               *)
(* ===================================================================== *)

Module ConfigFacts.

Import Config.

Lemma append_empty_r (s : string) : (s ++ EmptyString)%string = s.
Proof.
  induction s as [|c s IH]; simpl; [reflexivity | now rewrite IH].
Qed.

Lemma append_snoc (s : string) (c : ascii) (s' : string) :
  ((s ++ String c EmptyString) ++ s')%string = (s ++ String c s')%string.
Proof.
  induction s as [|d s IH]; simpl; [reflexivity | now rewrite IH].
Qed.

Lemma empty_true (s : string) : empty s = true <-> s = EmptyString.
Proof.
  destruct s; simpl; split; intros E; try reflexivity; discriminate E.
Qed.

Lemma glue_empty (Separator : ascii) (s : string) :
  glue EmptyString (segments Separator s) = segments Separator s.
Proof.
  destruct s as [|c s]; simpl; [reflexivity|].
  destruct (Ascii.eqb c Separator); [reflexivity|].
  destruct (segments Separator s); reflexivity.
Qed.

(** [segments] is the split of the key at its separators: there is at
    least one segment, no segment holds a separator, and joining the
    segments with the separator gives the key back. *)
Lemma segments_nonempty (Separator : ascii) (s : string) :
  segments Separator s <> [].
Proof.
  destruct s as [|c s]; simpl; [discriminate|].
  destruct (Ascii.eqb c Separator); [discriminate|].
  destruct (segments Separator s); discriminate.
Qed.

Lemma segments_free_of_separator (Separator : ascii) (s : string) :
  Forall (fun seg => has_char Separator seg = false) (segments Separator s).
Proof.
  induction s as [|c s IH]; simpl.
  - repeat constructor.
  - destruct (Ascii.eqb c Separator) eqn:E.
    + constructor; [reflexivity | exact IH].
    + destruct (segments Separator s) as [|seg rest].
      * repeat constructor. simpl. now rewrite E.
      * inversion IH as [|? ? Hseg Hrest]; subst.
        constructor; [simpl; now rewrite E, Hseg | exact Hrest].
Qed.

Lemma segments_join (Separator : ascii) (s : string) :
  String.concat (String Separator EmptyString) (segments Separator s) = s.
Proof.
  induction s as [|c s IH]; simpl; [reflexivity|].
  pose proof (segments_nonempty Separator s) as N.
  destruct (segments Separator s) as [|seg rest]; [now elim N|].
  destruct (Ascii.eqb_spec c Separator) as [->|Ne].
  - change (String.concat (String Separator EmptyString) (EmptyString :: seg :: rest))
      with (String Separator
              (String.concat (String Separator EmptyString) (seg :: rest))).
    now rewrite IH.
  - destruct rest as [|seg' rest']; simpl in *; now rewrite IH.
Qed.

(** The loop followed by the closing [saveToken()], started with any
    pending token and any queue. *)
Lemma scan_then_save (Separator : ascii) (cs : string) :
  forall t : Tokenizer,
    match (match scan Separator cs t with
           | inl e => inl e
           | inr t' => saveToken t'
           end) with
    | inl _ => In EmptyString (glue (token_ t) (segments Separator cs))
    | inr t' =>
        ~ In EmptyString (glue (token_ t) (segments Separator cs))
        /\ t' = {| key_ := key_ t;
                   token_ := EmptyString;
                   tokens_ := tokens_ t ++ glue (token_ t) (segments Separator cs) |}
    end.
Proof.
  induction cs as [|c cs IH]; intros [k tok q]; simpl.
  - unfold saveToken; simpl. rewrite append_empty_r.
    destruct tok as [|a tok]; simpl.
    + now left.
    + split; [|reflexivity]. intros [E|[]]; discriminate E.
  - destruct (Ascii.eqb c Separator).
    + unfold saveToken at 1; simpl. rewrite append_empty_r.
      destruct tok as [|a tok]; simpl.
      * now left.
      * specialize (IH {| key_ := k; token_ := EmptyString; tokens_ := q ++ [String a tok] |}).
        simpl in IH. rewrite glue_empty in IH.
        destruct (scan Separator cs _) as [e|t']; simpl in *.
        -- now right.
        -- destruct (saveToken t') as [e|t''].
           ++ now right.
           ++ destruct IH as [Hn ->]. split.
              ** intros [E|Hin]; [discriminate E | exact (Hn Hin)].
              ** now rewrite <- app_assoc.
    + specialize (IH {| key_ := k; token_ := (tok ++ String c EmptyString)%string; tokens_ := q |}).
      simpl in IH.
      assert (G : glue (tok ++ String c EmptyString)%string (segments Separator cs)
                  = glue tok (match segments Separator cs with
                              | [] => [String c EmptyString]
                              | seg :: rest => String c seg :: rest
                              end)).
      { destruct (segments Separator cs); simpl; [reflexivity|].
        now rewrite append_snoc. }
      rewrite G in IH. exact IH.
Qed.

(** What the constructor does, in terms of the key's segments. *)
Lemma construct_segments (Separator : ascii) (key : string) :
  match construct Separator key with
  | inl _ => key = EmptyString \/ In EmptyString (segments Separator key)
  | inr t =>
      key <> EmptyString
      /\ ~ In EmptyString (segments Separator key)
      /\ t = {| key_ := key; token_ := EmptyString;
                tokens_ := segments Separator key |}
  end.
Proof.
  unfold construct. destruct (empty key) eqn:E.
  - left. now apply empty_true.
  - pose proof (scan_then_save Separator key
                  {| key_ := key; token_ := EmptyString; tokens_ := [] |}) as S.
    simpl in S. rewrite glue_empty in S.
    destruct (scan Separator key _) as [e|t'].
    + now right.
    + destruct (saveToken t') as [e|t''].
      * now right.
      * destruct S as [Hn ->]. repeat split; [|exact Hn].
        intros ->. discriminate E.
Qed.

(** [n] calls of [next()] read the queue front to back and then keep
    answering [nullopt]. *)
Lemma calls_queue (n : nat) :
  forall t : Tokenizer,
    calls n t = map (nth_error (tokens_ t)) (List.seq 0 n).
Proof.
  induction n as [|n IH]; intros [k tok q]; [reflexivity|].
  cbn [calls List.seq map]. rewrite <- seq_shift, map_map.
  unfold next; simpl. destruct q as [|x q]; simpl.
  - rewrite IH; simpl. f_equal.
    apply map_ext; intros i. now destruct i.
  - rewrite IH; simpl. reflexivity.
Qed.

(** C10.  The constructor of the configuration-key tokenizer throws
    [KeyException] exactly when the key is empty or one of its
    separator-delimited segments is empty; otherwise successive calls of
    [next()] return the segments of the key from left to right and
    [nullopt] on every call after the last segment. *)
Theorem Tokenizer_segments (Separator : ascii) (key : string) :
  ((exists e, construct Separator key = inl e)
   <-> (key = EmptyString \/ In EmptyString (segments Separator key)))
  /\ (forall t, construct Separator key = inr t ->
      forall n, calls n t
                = map (nth_error (segments Separator key)) (List.seq 0 n)).
Proof.
  pose proof (construct_segments Separator key) as C.
  destruct (construct Separator key) as [e|t] eqn:E.
  - split.
    + split; [intros _; exact C | intros _; now exists e].
    + intros t' D. discriminate D.
  - destruct C as (Hk & Hs & ->). split.
    + split.
      * intros [e D]. discriminate D.
      * intros [K|S]; [elim (Hk K) | elim (Hs S)].
    + intros t' D n. injection D as <-. now rewrite calls_queue.
Qed.

(** The key ["a.bc.d"] yields ["a"], ["bc"], ["d"] and then nothing. *)
Lemma Tokenizer_segments_witness :
  exists t, construct "." "a.bc.d" = inr t
            /\ calls 5 t = [Some "a"; Some "bc"; Some "d"; None; None]%string.
Proof.
  eexists. split; [reflexivity|].
  exact (proj2 (Tokenizer_segments "." "a.bc.d") _ eq_refl 5).
Defined.

End ConfigFacts.

(* ===================================================================== *)
(** * Part VII.  Properties of the [amm_info] handler                     *)
(* ===================================================================== *)

Module AMMInfoFacts.

Import Ripple Backend AMMInfo.
Local Open Scope Z_scope.

Section Facts.

Variable P : Protocol.
Variable H : RPCHelpers.
Variable backend : BackendInterface.

(** An amount returned by [accountHolds] is native exactly when the
    currency asked for is. *)
Lemma accountHolds_isXRP sequence account currency issuer zeroIfFrozen :
  isXRP_amount (accountHolds H backend sequence account currency issuer zeroIfFrozen)
  = isXRP currency.
Proof.
  unfold accountHolds, isXRP_amount.
  destruct (isXRP currency) eqn:E; simpl; [reflexivity | exact E].
Qed.

Ltac unfold_process :=
  unfold process, getAmmPoolHolds, getAmmLpHolds, getAmmLpHolds_currencies,
    fetchLedgerRangeM, getLedgerInfoFromHashOrSeqM, fetchLedgerObjectM,
    accountHoldsM, isFrozenM, deref, read, bind, ret, fail, throw, undefined.

(** A run of [process] that returns a response went through every step:
    its reads and its response are the ones spelled out above. *)
Lemma process_Ok_inv (input : Input) (log : list Read) (output : Output) :
  process P H backend input = (log, Ok output) ->
  exists range lgrInfo ammBlob amm accBlob,
    fetchLedgerRange backend = Some range
    /\ getLedgerInfoFromHashOrSeq H backend (ledgerHash input) (ledgerIndex input)
         (maxSequence range) = inr lgrInfo
    /\ (forall id, accountID input = Some id ->
        exists blob,
          fetchLedgerObject backend (keylet_account P id) (seq lgrInfo) = Some blob)
    /\ fetchLedgerObject backend (keylet_amm P (issue1 input) (issue2 input))
         (seq lgrInfo) = Some ammBlob
    /\ deserialize P ammBlob (keylet_amm P (issue1 input) (issue2 input)) = Some amm
    /\ fetchLedgerObject backend (keylet_account P (sfAccount amm)) (seq lgrInfo)
       = Some accBlob
    /\ log = successReads P input range lgrInfo amm
    /\ output = successOutput P H backend input lgrInfo amm.
Proof.
  unfold_process.
  destruct (fetchLedgerRange backend) as [range|] eqn:ER; [|discriminate].
  cbn iota beta.
  destruct (getLedgerInfoFromHashOrSeq H backend _ _ _) as [status|lgrInfo] eqn:EL;
    [discriminate|].
  set (ammKey := keylet_amm P (issue1 input) (issue2 input)).
  unfold successReads, accountCheckReads, lpHoldsReads, frozenReads, frozenRead,
    successOutput, frozenFlag, lpTokenAmount, objectReads, poolHoldsReads, lpHoldsRead.
  fold ammKey.
  destruct (accountID input) as [id|] eqn:EA;
    [ destruct (fetchLedgerObject backend (keylet_account P id) (seq lgrInfo))
        as [idBlob|] eqn:EI; cbv beta iota zeta; [|discriminate] | ];
    (destruct (fetchLedgerObject backend ammKey (seq lgrInfo)) as [ammBlob|] eqn:EB;
       cbv beta iota zeta; [|discriminate]);
    (destruct (deserialize P ammBlob ammKey) as [amm|] eqn:ED;
       cbv beta iota zeta; [|discriminate]);
    (destruct (fetchLedgerObject backend (keylet_account P (sfAccount amm)) (seq lgrInfo))
       as [accBlob|] eqn:EC; cbv beta iota zeta; [|discriminate]);
    rewrite !accountHolds_isXRP;
    destruct (isXRP (currency (issue1 input)));
    destruct (isXRP (currency (issue2 input)));
    cbv beta iota zeta; simpl negb; cbv beta iota zeta;
    intros E; injection E as <- <-;
    exists range, lgrInfo, ammBlob, amm, accBlob;
    (repeat split; try assumption; try reflexivity);
    try (intros id' E'; first [discriminate E' | injection E' as <-; eauto]).
Qed.

(** Conversely, when every lookup succeeds [process] runs to its last line. *)
Lemma process_success (input : Input) (range : LedgerRange)
    (lgrInfo : LedgerInfo) (ammBlob : Blob) (amm : SLE) (accBlob : Blob) :
  fetchLedgerRange backend = Some range ->
  getLedgerInfoFromHashOrSeq H backend (ledgerHash input) (ledgerIndex input)
    (maxSequence range) = inr lgrInfo ->
  (forall id, accountID input = Some id ->
   exists blob,
     fetchLedgerObject backend (keylet_account P id) (seq lgrInfo) = Some blob) ->
  fetchLedgerObject backend (keylet_amm P (issue1 input) (issue2 input))
    (seq lgrInfo) = Some ammBlob ->
  deserialize P ammBlob (keylet_amm P (issue1 input) (issue2 input)) = Some amm ->
  fetchLedgerObject backend (keylet_account P (sfAccount amm)) (seq lgrInfo)
  = Some accBlob ->
  process P H backend input
  = (successReads P input range lgrInfo amm,
     Ok (successOutput P H backend input lgrInfo amm)).
Proof.
  intros ER EL EA EB ED EC.
  unfold_process.
  rewrite ER; cbv beta iota zeta. rewrite EL; cbv beta iota zeta.
  unfold successReads, accountCheckReads, lpHoldsReads, frozenReads, frozenRead,
    successOutput, frozenFlag, lpTokenAmount, objectReads, poolHoldsReads, lpHoldsRead.
  destruct (accountID input) as [id|];
    [ destruct (EA id eq_refl) as [blob EI]; rewrite EI; cbv beta iota zeta | ];
    rewrite EB; cbv beta iota zeta; rewrite ED; cbv beta iota zeta;
    rewrite EC; cbv beta iota zeta; rewrite !accountHolds_isXRP;
    destruct (isXRP (currency (issue1 input)));
    destruct (isXRP (currency (issue2 input))); reflexivity.
Qed.

(** Every read of a complete run that takes a sequence takes the
    snapshot's. *)
Lemma successReads_pinned (input : Input) (range : LedgerRange)
    (lgrInfo : LedgerInfo) (amm : SLE) :
  Forall (fun r => read_sequence r = None \/ read_sequence r = Some (seq lgrInfo))
         (successReads P input range lgrInfo amm).
Proof.
  unfold successReads, accountCheckReads, lpHoldsReads, frozenReads, frozenRead,
    objectReads, poolHoldsReads, lpHoldsRead.
  destruct (accountID input);
    destruct (isXRP (currency (issue1 input)));
    destruct (isXRP (currency (issue2 input)));
    simpl; repeat (apply Forall_cons || apply Forall_nil); simpl; auto.
Qed.

(** C1.  In a request that produces a response, every backend read made
    while building it (the account-existence check, the AMM object fetch,
    the fetch of the AMM's account, the two pool-holds reads, the LP-holds
    read and each frozen check) carries the sequence of the ledger header
    resolved at the start; that sequence is also the response's
    [ledger_index], and no read carries another one. *)
Theorem reads_pinned_to_snapshot (input : Input) (log : list Read) (output : Output) :
  process P H backend input = (log, Ok output) ->
  exists range lgrInfo amm,
    fetchLedgerRange backend = Some range
    /\ getLedgerInfoFromHashOrSeq H backend (ledgerHash input) (ledgerIndex input)
         (maxSequence range) = inr lgrInfo
    /\ ledgerIndex_ output = seq lgrInfo
    /\ log = [ RdLedgerRange;
               RdLedgerInfo (ledgerHash input) (ledgerIndex input) (maxSequence range) ]
             ++ accountCheckReads P input lgrInfo
             ++ objectReads P input lgrInfo amm
             ++ poolHoldsReads input lgrInfo amm
             ++ lpHoldsReads P input lgrInfo amm
             ++ frozenReads input lgrInfo amm
    /\ Forall (fun r => read_sequence r = None
                        \/ read_sequence r = Some (seq lgrInfo)) log
    /\ (forall r s, In r log -> read_sequence r = Some s -> s = seq lgrInfo).
Proof.
  intros E.
  destruct (process_Ok_inv input log output E)
    as (range & lgrInfo & ammBlob & amm & accBlob & ER & EL & _ & _ & _ & _ & -> & ->).
  exists range, lgrInfo, amm.
  pose proof (successReads_pinned input range lgrInfo amm) as F.
  repeat split; try assumption; try reflexivity.
  intros r s Hin Hs. rewrite Forall_forall in F.
  destruct (F r Hin) as [N|S]; congruence.
Qed.

(** [contains] on the members written by [tag_invoke]. *)
Lemma ammObject_members (output : Output) :
  contains (ammObject output) "auction_slot" = negb (is_null (auctionSlot output))
  /\ contains (ammObject output) "asset_frozen"
     = match asset1Frozen output with Some _ => true | None => false end
  /\ contains (ammObject output) "asset2_frozen"
     = match asset2Frozen output with Some _ => true | None => false end.
Proof.
  unfold ammObject.
  destruct (is_null (auctionSlot output)), (voteSlots output),
    (asset1Frozen output), (asset2Frozen output); repeat split; reflexivity.
Qed.

Lemma amm_has_ammObject (output : Output) (key : string) :
  amm_has (Output_to_json output) key = contains (ammObject output) key.
Proof. reflexivity. Qed.

(** C5.  In a response, [asset_frozen] is present exactly when the first
    asset is not the native one and [asset2_frozen] exactly when the second
    is not; for a native asset the member is absent. *)
Theorem frozen_members_iff_non_native (input : Input) (log : list Read)
    (output : Output) :
  process P H backend input = (log, Ok output) ->
  amm_has (Output_to_json output) "asset_frozen"
  = negb (isXRP (currency (issue1 input)))
  /\ amm_has (Output_to_json output) "asset2_frozen"
     = negb (isXRP (currency (issue2 input))).
Proof.
  intros E.
  destruct (process_Ok_inv input log output E)
    as (range & lgrInfo & ammBlob & amm & accBlob & _ & _ & _ & _ & _ & _ & _ & ->).
  rewrite !amm_has_ammObject.
  destruct (ammObject_members (successOutput P H backend input lgrInfo amm))
    as (_ & -> & ->).
  unfold successOutput, frozenFlag; simpl.
  destruct (isXRP (currency (issue1 input)));
    destruct (isXRP (currency (issue2 input))); split; reflexivity.
Qed.


(** With no known range the handler stops at [range->maxSequence]. *)
Lemma process_without_range (input : Input) :
  fetchLedgerRange backend = None ->
  process P H backend input = ([RdLedgerRange], Undefined).
Proof.
  intros ER. unfold_process. rewrite ER. reflexivity.
Qed.

(** X20.  The known range is the first thing asked of the backend; when the
    store reports one, the ledger header is resolved next with the range's
    maximum sequence, and a failure of that resolution is returned as the
    error of the request, with no read after it. *)
Lemma range_queried_first (input : Input) :
  (exists rest result,
      process P H backend input = (RdLedgerRange :: rest, result))
  /\ (forall range status,
        fetchLedgerRange backend = Some range ->
        getLedgerInfoFromHashOrSeq H backend (ledgerHash input) (ledgerIndex input)
          (maxSequence range) = inl status ->
        process P H backend input
        = ([ RdLedgerRange;
             RdLedgerInfo (ledgerHash input) (ledgerIndex input) (maxSequence range) ],
           Error status)).
Proof.
  split.
  - unfold process, fetchLedgerRangeM, read.
    unfold bind at 1. cbv beta iota.
    match goal with
    | |- context [let (log', r) := ?m in _] => destruct m as [rest result]
    end.
    now exists rest, result.
  - intros range status ER EL. unfold_process.
    rewrite ER; cbv beta iota zeta. rewrite EL. reflexivity.
Qed.


(** C7.  When the request names an account and that account has no object
    at the resolved sequence, the request ends with the account-not-found
    error right after that lookup: the AMM object is never fetched, decoded
    or read from. *)
Theorem missing_account_stops_before_amm (input : Input) (id : AccountID)
    (range : LedgerRange) (lgrInfo : LedgerInfo) :
  accountID input = Some id ->
  fetchLedgerRange backend = Some range ->
  getLedgerInfoFromHashOrSeq H backend (ledgerHash input) (ledgerIndex input)
    (maxSequence range) = inr lgrInfo ->
  fetchLedgerObject backend (keylet_account P id) (seq lgrInfo) = None ->
  process P H backend input
  = ([ RdLedgerRange;
       RdLedgerInfo (ledgerHash input) (ledgerIndex input) (maxSequence range);
       RdObject (keylet_account P id) (seq lgrInfo) ],
     Error (Status_of rpcACT_NOT_FOUND)).
Proof.
  intros EA ER EL EI. unfold_process.
  rewrite ER; cbv beta iota zeta. rewrite EL; cbv beta iota zeta.
  rewrite EA; cbv beta iota zeta. rewrite EI. reflexivity.
Qed.

(** C8.  Without a holder account the response's LP-token amount is the
    decoded entry's own [sfLPTokenBalance] and the reads are those of the
    other steps only; with a holder account the amount comes from one
    LP-holds read, issued after the pool-holds reads. *)
Theorem lp_token_source (input : Input) (log : list Read) (output : Output) :
  process P H backend input = (log, Ok output) ->
  exists range lgrInfo ammBlob amm,
    fetchLedgerRange backend = Some range
    /\ getLedgerInfoFromHashOrSeq H backend (ledgerHash input) (ledgerIndex input)
         (maxSequence range) = inr lgrInfo
    /\ fetchLedgerObject backend (keylet_amm P (issue1 input) (issue2 input))
         (seq lgrInfo) = Some ammBlob
    /\ deserialize P ammBlob (keylet_amm P (issue1 input) (issue2 input)) = Some amm
    /\ match accountID input with
       | None =>
           lpToken output = amountJson P (sfLPTokenBalance amm)
           /\ log = [ RdLedgerRange;
                      RdLedgerInfo (ledgerHash input) (ledgerIndex input)
                        (maxSequence range) ]
                    ++ objectReads P input lgrInfo amm
                    ++ poolHoldsReads input lgrInfo amm
                    ++ frozenReads input lgrInfo amm
       | Some holder =>
           lpToken output
           = amountJson P
               (accountHolds H backend (seq lgrInfo) holder
                  (ammLPTCurrency P (currency (sfAsset amm)) (currency (sfAsset2 amm)))
                  (sfAccount amm) true)
           /\ log = [ RdLedgerRange;
                      RdLedgerInfo (ledgerHash input) (ledgerIndex input)
                        (maxSequence range);
                      RdObject (keylet_account P holder) (seq lgrInfo) ]
                    ++ objectReads P input lgrInfo amm
                    ++ poolHoldsReads input lgrInfo amm
                    ++ [lpHoldsRead P lgrInfo amm holder]
                    ++ frozenReads input lgrInfo amm
       end.
Proof.
  intros E.
  destruct (process_Ok_inv input log output E)
    as (range & lgrInfo & ammBlob & amm & accBlob & ER & EL & _ & EB & ED & _ & -> & ->).
  exists range, lgrInfo, ammBlob, amm.
  split; [exact ER|]. split; [exact EL|].
  split; [exact EB|]. split; [exact ED|].
  unfold successReads, successOutput, lpTokenAmount, accountCheckReads, lpHoldsReads.
  destruct (accountID input) as [holder|]; simpl; split; reflexivity.
Qed.

(** Whether the handler sets [response.auctionSlot]. *)
Lemma auctionSlotJson_null (lgrInfo : LedgerInfo) (amm : SLE) :
  is_null (auctionSlotJson P lgrInfo amm)
  = match sfAuctionSlot amm with
    | Some slot => match slot_sfAccount slot with Some _ => false | None => true end
    | None => true
    end.
Proof.
  unfold auctionSlotJson.
  destruct (sfAuctionSlot amm) as [slot|]; [|reflexivity].
  destruct (slot_sfAccount slot) as [a|]; [|reflexivity].
  unfold auctionJson. destruct (slot_sfAuthAccounts slot); reflexivity.
Qed.

(** C9.  The response has an [auction_slot] member exactly when the
    decoded entry has an [sfAuctionSlot] that itself has an [sfAccount];
    a stored slot without an account gives no [auction_slot] member. *)
Theorem auction_slot_needs_account (input : Input) (log : list Read)
    (output : Output) :
  process P H backend input = (log, Ok output) ->
  exists range lgrInfo ammBlob amm,
    fetchLedgerRange backend = Some range
    /\ getLedgerInfoFromHashOrSeq H backend (ledgerHash input) (ledgerIndex input)
         (maxSequence range) = inr lgrInfo
    /\ fetchLedgerObject backend (keylet_amm P (issue1 input) (issue2 input))
         (seq lgrInfo) = Some ammBlob
    /\ deserialize P ammBlob (keylet_amm P (issue1 input) (issue2 input)) = Some amm
    /\ (amm_has (Output_to_json output) "auction_slot" = true
        <-> exists slot slotAccount,
              sfAuctionSlot amm = Some slot
              /\ slot_sfAccount slot = Some slotAccount)
    /\ (forall slot,
          sfAuctionSlot amm = Some slot -> slot_sfAccount slot = None ->
          amm_has (Output_to_json output) "auction_slot" = false).
Proof.
  intros E.
  destruct (process_Ok_inv input log output E)
    as (range & lgrInfo & ammBlob & amm & accBlob & ER & EL & _ & EB & ED & _ & _ & ->).
  exists range, lgrInfo, ammBlob, amm.
  split; [exact ER|]. split; [exact EL|].
  split; [exact EB|]. split; [exact ED|].
  rewrite amm_has_ammObject.
  destruct (ammObject_members (successOutput P H backend input lgrInfo amm))
    as (-> & _ & _).
  cbn [successOutput auctionSlot]. rewrite auctionSlotJson_null.
  destruct (sfAuctionSlot amm) as [slot|].
  - destruct (slot_sfAccount slot) as [a|] eqn:EA; simpl; split.
    + split; [intros _; now exists slot, a | reflexivity].
    + intros slot' [= <-] N. congruence.
    + split; [discriminate | intros (slot' & a' & [= <-] & N); congruence].
    + reflexivity.
  - simpl; split.
    + split; [discriminate | intros (slot' & a' & N & _); discriminate N].
    + intros slot' N. discriminate N.
Qed.


(** ** Order of the two assets *)

Lemma Issue_ltb_asym (a b : Issue) :
  Issue_ltb a b = true -> Issue_ltb b a = false.
Proof.
  destruct a as [ca ia], b as [cb ib]; unfold Issue_ltb; simpl.
  destruct (Z.ltb_spec ca cb), (Z.ltb_spec cb ca),
    (Z.eqb_spec ca cb), (Z.eqb_spec cb ca),
    (Z.ltb_spec ia ib), (Z.ltb_spec ib ia); simpl; intros; try reflexivity;
    try discriminate; lia.
Qed.

Lemma Issue_ltb_total (a b : Issue) :
  Issue_ltb a b = false -> Issue_ltb b a = false -> a = b.
Proof.
  destruct a as [ca ia], b as [cb ib]; unfold Issue_ltb; simpl.
  destruct (Z.ltb_spec ca cb), (Z.ltb_spec cb ca),
    (Z.eqb_spec ca cb), (Z.eqb_spec cb ca),
    (Z.ltb_spec ia ib), (Z.ltb_spec ib ia); simpl; intros; try discriminate;
    try (exfalso; lia); f_equal; lia.
Qed.

Lemma minmax_Issue_sym (a b : Issue) :
  minmax Issue_ltb a b = minmax Issue_ltb b a.
Proof.
  unfold minmax.
  destruct (Issue_ltb b a) eqn:Eba, (Issue_ltb a b) eqn:Eab; try reflexivity.
  - rewrite (Issue_ltb_asym _ _ Eba) in Eab. discriminate Eab.
  - now rewrite (Issue_ltb_total _ _ Eab Eba).
Qed.

Lemma minmax_Currency_sym (c1 c2 : Currency) :
  minmax Z.ltb c1 c2 = minmax Z.ltb c2 c1.
Proof.
  unfold minmax.
  destruct (Z.ltb_spec c2 c1), (Z.ltb_spec c1 c2); try reflexivity; try lia.
  f_equal; lia.
Qed.

Lemma keylet_amm_sym (a1 a2 : Issue) : keylet_amm P a1 a2 = keylet_amm P a2 a1.
Proof. unfold keylet_amm. now rewrite minmax_Issue_sym. Qed.

Lemma ammLPTCurrency_sym (c1 c2 : Currency) :
  ammLPTCurrency P c1 c2 = ammLPTCurrency P c2 c1.
Proof. unfold ammLPTCurrency. now rewrite minmax_Currency_sym. Qed.

(** C2.  The AMM object key derived from two asset identities and the
    LP-token currency derived from their two currency codes do not depend
    on the order of the pair; so the request with [asset] and [asset2]
    exchanged looks up the same AMM object and, when the original request
    is answered, is answered with the same AMM id and the same LP-token
    amount, read for the same LP-token identity. *)
Theorem asset_order_independence (a1 a2 : Issue) (input : Input) :
  keylet_amm P a1 a2 = keylet_amm P a2 a1
  /\ ammLPTCurrency P (currency a1) (currency a2)
     = ammLPTCurrency P (currency a2) (currency a1)
  /\ keylet_amm P (issue1 (swapAssets input)) (issue2 (swapAssets input))
     = keylet_amm P (issue1 input) (issue2 input)
  /\ (forall log output,
        process P H backend input = (log, Ok output) ->
        exists log' output' lgrInfo amm,
          process P H backend (swapAssets input) = (log', Ok output')
          /\ ammID output' = ammID output
          /\ lpToken output' = lpToken output
          /\ incl (RdObject (keylet_amm P (issue1 input) (issue2 input)) (seq lgrInfo)
                   :: lpHoldsReads P input lgrInfo amm) log
          /\ incl (RdObject (keylet_amm P (issue1 input) (issue2 input)) (seq lgrInfo)
                   :: lpHoldsReads P input lgrInfo amm) log').
Proof.
  split; [apply keylet_amm_sym|].
  split; [apply ammLPTCurrency_sym|].
  split; [apply keylet_amm_sym|].
  intros log output E.
  destruct (process_Ok_inv input log output E)
    as (range & lgrInfo & ammBlob & amm & accBlob
        & ER & EL & EA & EB & ED & EC & -> & ->).
  assert (K : keylet_amm P (issue1 (swapAssets input)) (issue2 (swapAssets input))
              = keylet_amm P (issue1 input) (issue2 input))
    by apply keylet_amm_sym.
  exists (successReads P (swapAssets input) range lgrInfo amm),
         (successOutput P H backend (swapAssets input) lgrInfo amm),
         lgrInfo, amm.
  split.
  - apply (process_success (swapAssets input) range lgrInfo ammBlob amm accBlob);
      try rewrite K; assumption.
  - split; [cbn [successOutput ammID]; now rewrite K|].
    split; [reflexivity|].
    unfold successReads, objectReads. rewrite K.
    split; intros r [<-|Hin]; simpl;
      repeat (rewrite in_app_iff; simpl); auto 10.
Qed.

(** ** The request conversion *)

(** [getIssue] never changes the issuing account of [xrpIssue()]. *)
Lemma getIssue_account (request : json) (i : Issue) :
  getIssue P request = Some i -> account i = xrpAccount.
Proof.
  unfold getIssue. destruct request as [| | | | | |elems|members]; try discriminate.
  destruct (at_key members "currency") as [[| | | | |code| |]|]; try discriminate.
  destruct (to_currency P _ _) as [ok cur]. intros [= <-]. reflexivity.
Qed.

(** ** The auction slot's time interval *)

Lemma slotIndex_at_least (current : Z) (slot : AuctionSlot) (k : Z) :
  0 < AUCTION_SLOT_INTERVAL_DURATION P ->
  slotStart P slot + k * AUCTION_SLOT_INTERVAL_DURATION P <= current ->
  k <= slotIndex P current slot.
Proof.
  intros Hd Hk. unfold slotIndex.
  apply Z.div_le_lower_bound; [exact Hd | lia].
Qed.

(** The projector by cases on the index. *)
Lemma ammAuctionTimeSlot_inside (current : Z) (slot : AuctionSlot) :
  0 <= slotIndex P current slot < AUCTION_SLOT_TIME_INTERVALS P ->
  ammAuctionTimeSlot P current slot = Some (slotIndex P current slot).
Proof.
  intros [Lo Hi]. unfold ammAuctionTimeSlot.
  destruct (Z.ltb_spec (slotIndex P current slot) 0); [lia|].
  destruct (Z.leb_spec (AUCTION_SLOT_TIME_INTERVALS P) (slotIndex P current slot));
    [lia|]. reflexivity.
Qed.

Lemma ammAuctionTimeSlot_outside (current : Z) (slot : AuctionSlot) :
  slotIndex P current slot < 0
  \/ AUCTION_SLOT_TIME_INTERVALS P <= slotIndex P current slot ->
  ammAuctionTimeSlot P current slot = None.
Proof.
  intros O. unfold ammAuctionTimeSlot.
  destruct (Z.ltb_spec (slotIndex P current slot) 0); [reflexivity|].
  destruct (Z.leb_spec (AUCTION_SLOT_TIME_INTERVALS P) (slotIndex P current slot));
    [reflexivity|]. lia.
Qed.

(** What [tag_invoke] writes under [auction_slot]. *)
Lemma ammObject_auction_slot (output : Output) :
  at_key (ammObject output) "auction_slot"
  = if is_null (auctionSlot output) then None else Some (auctionSlot output).
Proof.
  unfold ammObject.
  destruct (is_null (auctionSlot output)), (voteSlots output),
    (asset1Frozen output), (asset2Frozen output); reflexivity.
Qed.

(** The [time_interval] member the handler writes into the auction
    object. *)
Lemma auctionJson_time_interval (lgrInfo : LedgerInfo) (slot : AuctionSlot)
    (slotAccount : AccountID) :
  exists auction,
    auctionJson P lgrInfo slot slotAccount = JObject auction
    /\ at_key auction "time_interval"
       = Some (JUInt64 (time_interval P (parentCloseTime lgrInfo) slot)).
Proof.
  unfold auctionJson.
  destruct (slot_sfAuthAccounts slot); eexists; split; reflexivity.
Qed.

(** C4, with the index range that agrees with its last clause.  The
    projector returns the zero-based index
    [floor((parentCloseTime - slotStart) / d)] when it lies in
    [[0, n - 1]], [n] being the number of sub-intervals; when the index is
    negative or at least [n] it returns the sentinel, and the handler then
    writes the constant [n] as [time_interval].  With [n = 20] a close time
    at the middle of the window gives index 10, and a close time after the
    end of the window gives the sentinel.  In every response that carries
    an [auction_slot], its [time_interval] member is the value so
    obtained, computed from the close time of the resolved ledger. *)
Theorem auction_time_slot :
  0 < AUCTION_SLOT_INTERVAL_DURATION P ->
  let n := AUCTION_SLOT_TIME_INTERVALS P in
  let d := AUCTION_SLOT_INTERVAL_DURATION P in
  (forall current slot,
      let index := slotIndex P current slot in
      (0 <= index < n ->
       ammAuctionTimeSlot P current slot = Some index
       /\ time_interval P current slot = index)
      /\ (index < 0 \/ n <= index ->
          ammAuctionTimeSlot P current slot = None
          /\ time_interval P current slot = n)
      /\ (n = 20 -> current = slotStart P slot + 10 * d ->
          ammAuctionTimeSlot P current slot = Some 10
          /\ time_interval P current slot = 10)
      /\ (slot_sfExpiration slot < current ->
          ammAuctionTimeSlot P current slot = None
          /\ time_interval P current slot = n))
  /\ (forall input log output,
        process P H backend input = (log, Ok output) ->
        exists range lgrInfo ammBlob amm,
          fetchLedgerRange backend = Some range
          /\ getLedgerInfoFromHashOrSeq H backend (ledgerHash input)
               (ledgerIndex input) (maxSequence range) = inr lgrInfo
          /\ fetchLedgerObject backend (keylet_amm P (issue1 input) (issue2 input))
               (seq lgrInfo) = Some ammBlob
          /\ deserialize P ammBlob (keylet_amm P (issue1 input) (issue2 input))
             = Some amm
          /\ forall slot slotAccount,
               sfAuctionSlot amm = Some slot ->
               slot_sfAccount slot = Some slotAccount ->
               exists auction,
                 amm_at (Output_to_json output) "auction_slot"
                 = Some (JObject auction)
                 /\ at_key auction "time_interval"
                    = Some (JUInt64
                              (time_interval P (parentCloseTime lgrInfo) slot))).
Proof.
  intros Hd n d. split.
  - intros current slot index.
    assert (Start : slotStart P slot = slot_sfExpiration slot - n * d)
      by reflexivity.
    assert (Inside : 0 <= index < n ->
              ammAuctionTimeSlot P current slot = Some index
              /\ time_interval P current slot = index).
    { intros R. pose proof (ammAuctionTimeSlot_inside current slot R) as E.
      split; [exact E|]. unfold time_interval. now rewrite E. }
    assert (Outside : index < 0 \/ n <= index ->
              ammAuctionTimeSlot P current slot = None
              /\ time_interval P current slot = n).
    { intros O. pose proof (ammAuctionTimeSlot_outside current slot O) as E.
      split; [exact E|]. unfold time_interval. now rewrite E. }
    split; [exact Inside|]. split; [exact Outside|]. split.
    + intros N20 Mid.
      assert (I10 : index = 10).
      { unfold index, slotIndex. fold d. rewrite Mid.
        replace (slotStart P slot + 10 * d - slotStart P slot) with (10 * d) by lia.
        apply Z.div_mul. lia. }
      rewrite <- I10. apply Inside. lia.
    + intros Late. apply Outside. right.
      apply slotIndex_at_least; [exact Hd|]. fold d. fold n. lia.
  - intros input log output E.
    destruct (process_Ok_inv input log output E)
      as (range & lgrInfo & ammBlob & amm & accBlob
          & ER & EL & _ & EB & ED & _ & _ & ->).
    exists range, lgrInfo, ammBlob, amm.
    split; [exact ER|]. split; [exact EL|].
    split; [exact EB|]. split; [exact ED|].
    intros slot slotAccount ES EA.
    destruct (auctionJson_time_interval lgrInfo slot slotAccount)
      as (auction & EJ & ET).
    exists auction. split; [|exact ET].
    change (amm_at (Output_to_json (successOutput P H backend input lgrInfo amm))
              "auction_slot")
      with (at_key (ammObject (successOutput P H backend input lgrInfo amm))
              "auction_slot").
    rewrite ammObject_auction_slot.
    cbn [successOutput auctionSlot]. unfold auctionSlotJson.
    rewrite ES, EA, EJ. reflexivity.
Qed.

End Facts.

(** ** Runs on the small ledger *)

Import Fixture.

(** A request with a holder account against the stored AMM: all nine reads
    are made at sequence 100, the resolved one. *)
Lemma reads_pinned_to_snapshot_witness :
  exists log output,
    process protocol helpers (store [Byte.x01]) (request (Some holderAccount))
    = (log, Ok output)
    /\ ledgerIndex_ output = 100
    /\ List.length log = 9%nat
    /\ forall r s, In r log -> read_sequence r = Some s -> s = 100.
Proof.
  eexists. eexists. split; [vm_compute; reflexivity|].
  destruct (reads_pinned_to_snapshot protocol helpers (store [Byte.x01])
              (request (Some holderAccount)) _ _ eq_refl)
    as (range & lgrInfo & amm & _ & _ & EI & _ & _ & F).
  split; [reflexivity|]. split; [reflexivity|].
  intros r s Hin Hs. rewrite (F r s Hin Hs). symmetry. exact EI.
Defined.

(** USD against the native asset: [asset_frozen] is there, [asset2_frozen]
    is not. *)
Lemma frozen_members_iff_non_native_witness :
  exists log output,
    process protocol helpers (store [Byte.x01]) (request None) = (log, Ok output)
    /\ amm_has (Output_to_json output) "asset_frozen" = true
    /\ amm_has (Output_to_json output) "asset2_frozen" = false.
Proof.
  eexists. eexists. split; [vm_compute; reflexivity|].
  exact (frozen_members_iff_non_native protocol helpers (store [Byte.x01])
           (request None) _ _ eq_refl).
Defined.

(** A ledger index outside the known range: the resolver's status is the
    result, after two reads. *)
Lemma range_queried_first_witness :
  process protocol helpers (store [Byte.x01]) (requestAt 500)
  = ([RdLedgerRange; RdLedgerInfo None (Some 500) 100],
     Error (Status_of rpcLGR_NOT_FOUND)).
Proof.
  exact (proj2 (range_queried_first protocol helpers (store [Byte.x01]) (requestAt 500))
           {| minSequence := 1; maxSequence := 100 |} (Status_of rpcLGR_NOT_FOUND)
           eq_refl eq_refl).
Defined.


(** Account 5 has no object at sequence 100. *)
Lemma missing_account_stops_before_amm_witness :
  process protocol helpers (store [Byte.x01]) (request (Some 5))
  = ([RdLedgerRange; RdLedgerInfo None None 100; RdObject 1005 100],
     Error (Status_of rpcACT_NOT_FOUND)).
Proof.
  exact (missing_account_stops_before_amm protocol helpers (store [Byte.x01])
           (request (Some 5)) 5 {| minSequence := 1; maxSequence := 100 |}
           {| seq := 100; parentCloseTime := 43200 |}
           eq_refl eq_refl eq_refl eq_refl).
Defined.

(** The entries the small ledger can decode an AMM blob to. *)
Lemma store_amm (ammBlob blob : Blob) (sequence : Z) (amm : SLE) :
  fetchLedgerObject (store ammBlob) (keylet_amm protocol usdIssue xrpIssue) sequence
  = Some blob ->
  deserialize protocol blob (keylet_amm protocol usdIssue xrpIssue) = Some amm ->
  deserialize protocol ammBlob (keylet_amm protocol usdIssue xrpIssue) = Some amm.
Proof.
  unfold store; cbn [fetchLedgerObject].
  destruct (negb (sequence =? 100)); [discriminate|].
  vm_compute (keylet_amm protocol usdIssue xrpIssue).
  vm_compute (keylet_account protocol holderAccount).
  cbn [Z.eqb Pos.eqb]. intros [= <-] D. exact D.
Qed.

(** Without a holder the LP amount is the entry's own balance and seven
    reads are made; none of them is an LP-holds read. *)
Lemma lp_token_source_witness :
  exists log output,
    process protocol helpers (store [Byte.x03]) (request None) = (log, Ok output)
    /\ lpToken output = amountJson protocol (sfLPTokenBalance (ammEntry None))
    /\ List.length log = 7%nat.
Proof.
  eexists. eexists. split; [vm_compute; reflexivity|].
  destruct (lp_token_source protocol helpers (store [Byte.x03]) (request None)
              _ _ eq_refl)
    as (range & lgrInfo & ammBlob & amm & _ & _ & EB & ED & EL & _).
  pose proof (store_amm _ _ _ _ EB ED) as D. injection D as <-.
  split; [exact EL | reflexivity].
Defined.

(** A stored slot nobody holds: no [auction_slot] in the response. *)
Lemma auction_slot_needs_account_witness :
  exists log output,
    process protocol helpers (store [Byte.x02]) (request None) = (log, Ok output)
    /\ amm_has (Output_to_json output) "auction_slot" = false.
Proof.
  eexists. eexists. split; [vm_compute; reflexivity|].
  destruct (auction_slot_needs_account protocol helpers (store [Byte.x02])
              (request None) _ _ eq_refl)
    as (range & lgrInfo & ammBlob & amm & _ & _ & EB & ED & _ & V).
  pose proof (store_amm _ _ _ _ EB ED) as D. injection D as <-.
  exact (V vacantSlot eq_refl eq_refl).
Defined.

(** The request for (native, USD) is answered like the one for
    (USD, native). *)
Lemma asset_order_independence_witness :
  keylet_amm protocol xrpIssue usdIssue = keylet_amm protocol usdIssue xrpIssue
  /\ exists log' output',
       process protocol helpers (store [Byte.x01]) (swapAssets (request None))
       = (log', Ok output')
       /\ ammID output' = "15746734116".
Proof.
  destruct (asset_order_independence protocol helpers (store [Byte.x01])
              usdIssue xrpIssue (request None))
    as (K & _ & _ & S).
  split; [symmetry; exact K|].
  destruct (S _ _ eq_refl) as (log' & output' & _ & _ & E & A & _).
  exists log', output'. split; [exact E | exact A].
Defined.

(** C3 at the request [requestJson]: the descriptor of [asset] carries the
    issuer ["rIssuer"], a well-formed account, and the converted request
    has the native account as the issuer of its first asset. *)
Theorem issuer_member_is_dropped :
  exists asset input,
    at_key (match requestJson with JObject o => o | _ => [] end) "asset"
    = Some (JObject asset)
    /\ at_key asset "issuer" = Some (JString "rIssuer")
    /\ accountFromStringStrict protocol "rIssuer" = Some issuerAccount
    /\ Input_from_json protocol requestJson = Some input
    /\ issue1 input = {| currency := USD; account := xrpAccount |}
    /\ account (issue1 input) <> issuerAccount.
Proof.
  eexists. eexists.
  split; [reflexivity|]. split; [reflexivity|]. split; [reflexivity|].
  split; [vm_compute; reflexivity|]. split; [reflexivity|].
  intros E. discriminate E.
Qed.

(** With 20 sub-intervals of 4320 seconds and the window [[0, 86400]], the
    close time 43200 of the resolved ledger is the middle of the window:
    the response's [auction_slot] carries [time_interval] 10. *)
Lemma auction_time_slot_witness :
  exists log output auction,
    process protocol helpers (store [Byte.x01]) (request None) = (log, Ok output)
    /\ ammAuctionTimeSlot protocol 43200 ammSlot = Some 10
    /\ amm_at (Output_to_json output) "auction_slot" = Some (JObject auction)
    /\ at_key auction "time_interval" = Some (JUInt64 10).
Proof.
  assert (Hd : 0 < AUCTION_SLOT_INTERVAL_DURATION protocol) by reflexivity.
  destruct (auction_time_slot protocol helpers (store [Byte.x01]) Hd)
    as (Projector & Response).
  destruct (Projector 43200 ammSlot) as (_ & _ & Mid & _).
  destruct (Mid eq_refl eq_refl) as (M & T).
  eexists. eexists.
  destruct (Response (request None) _ _ eq_refl)
    as (range & lgrInfo & ammBlob & amm & ER & EL & EB & ED & Slot).
  vm_compute in ER. injection ER as <-.
  vm_compute in EL. injection EL as <-.
  pose proof (store_amm _ _ _ _ EB ED) as D. injection D as <-.
  destruct (Slot ammSlot bidderAccount eq_refl eq_refl) as (auction & EA & ET).
  exists auction. split; [reflexivity|]. split; [exact M|]. split; [exact EA|].
  rewrite ET. cbn [parentCloseTime]. now rewrite T.
Defined.

(** One second after the end of that window the index is 20, which lies
    in [[0, 20]]: the projector returns the sentinel and not the index.
    No projector could do otherwise and still return the sentinel at every
    close time after the end of the window. *)
Lemma index_20_is_outside_the_window :
  slot_sfExpiration ammSlot < 86401
  /\ 0 <= slotIndex protocol 86401 ammSlot <= AUCTION_SLOT_TIME_INTERVALS protocol
  /\ ammAuctionTimeSlot protocol 86401 ammSlot = None
  /\ ammAuctionTimeSlot protocol 86401 ammSlot
     <> Some (slotIndex protocol 86401 ammSlot)
  /\ ~ (exists projector : Z -> AuctionSlot -> option Z,
          (forall current slot,
              0 <= slotIndex protocol current slot
                <= AUCTION_SLOT_TIME_INTERVALS protocol ->
              projector current slot = Some (slotIndex protocol current slot))
          /\ (forall current slot,
                slot_sfExpiration slot < current ->
                projector current slot = None)).
Proof.
  split; [reflexivity|]. split; [split; discriminate|].
  split; [reflexivity|]. split; [discriminate|].
  intros (projector & Index & End).
  assert (A : projector 86401 ammSlot = Some 20).
  { apply (Index 86401 ammSlot). split; discriminate. }
  assert (B : projector 86401 ammSlot = None).
  { apply (End 86401 ammSlot). reflexivity. }
  rewrite A in B. discriminate B.
Qed.

End AMMInfoFacts.

(* ===================================================================== *)
(** * Part VIII.  More about the tokenizer                                *)
(* ===================================================================== *)

Module ConfigMore.

Import Config ConfigFacts.

Lemma collect_firstn (n : nat) :
  forall t : Tokenizer, collect n t = firstn n (tokens_ t).
Proof.
  induction n as [|n IH]; intros [k tok q]; [reflexivity|].
  destruct q as [|x q]; simpl; [reflexivity|].
  now rewrite IH.
Qed.

Lemma length_segments (Separator : ascii) (s : string) :
  List.length (segments Separator s) = S (count_char Separator s).
Proof.
  induction s as [|c s IH]; simpl; [reflexivity|].
  destruct (Ascii.eqb c Separator); simpl.
  - now rewrite IH.
  - destruct (segments Separator s) as [|seg rest]; simpl in *; [discriminate IH|].
    exact IH.
Qed.

Lemma count_char_le (c : ascii) (s : string) :
  count_char c s <= String.length s.
Proof.
  induction s as [|d s IH]; simpl; [lia|].
  destruct (Ascii.eqb d c); lia.
Qed.

(** When no segment is empty there are at most as many segments as
    characters. *)
Lemma segments_at_most_length (Separator : ascii) (s : string) :
  ~ In EmptyString (segments Separator s) ->
  List.length (segments Separator s) <= String.length s.
Proof.
  induction s as [|c s IH]; simpl.
  - intros N. elim N. now left.
  - destruct (Ascii.eqb c Separator).
    + intros N. elim N. now left.
    + pose proof (length_segments Separator s) as L.
      pose proof (count_char_le Separator s) as C.
      destruct (segments Separator s) as [|seg rest]; simpl in *; lia.
Qed.

(** X1.  After a successful construction the tokenizer remembers the key,
    has no pending token, and holds one token more than the key has
    separators; no token is empty and none contains the separator. *)
Theorem tokens_wellformed (Separator : ascii) (key : string) (t : Tokenizer) :
  construct Separator key = inr t ->
  key_ t = key
  /\ token_ t = EmptyString
  /\ List.length (tokens_ t) = S (count_char Separator key)
  /\ Forall (fun token => token <> EmptyString
                          /\ has_char Separator token = false) (tokens_ t).
Proof.
  intros E. pose proof (construct_segments Separator key) as C.
  rewrite E in C. destruct C as (_ & Hn & ->). cbn [key_ token_ tokens_].
  repeat split; [apply length_segments|].
  pose proof (segments_free_of_separator Separator key) as F.
  rewrite Forall_forall in *. intros token Hin. split; [|now apply F].
  intros ->. exact (Hn Hin).
Qed.

Lemma tokens_wellformed_witness :
  exists t, construct "." "db.port" = inr t
            /\ key_ t = "db.port"
            /\ List.length (tokens_ t) = 2%nat
            /\ Forall (fun token => token <> EmptyString
                                    /\ has_char "." token = false) (tokens_ t).
Proof.
  assert (E : construct "." "db.port"
              = inr {| key_ := "db.port"; token_ := EmptyString;
                       tokens_ := ["db"; "port"]%string |})
    by (vm_compute; reflexivity).
  eexists. split; [exact E|].
  destruct (tokens_wellformed "." "db.port" _ E) as (K & _ & L & F).
  split; [exact K|]. split; [exact L | exact F].
Defined.

(** X2.  Joining the tokens that [next()] hands out, until it answers
    [nullopt], with the separator gives the key back; as many calls as the
    key has characters are enough to drain the tokenizer. *)
Theorem next_round_trip (Separator : ascii) (key : string) (t : Tokenizer) (n : nat) :
  construct Separator key = inr t ->
  String.length key <= n ->
  String.concat (String Separator EmptyString) (collect n t) = key.
Proof.
  intros E Hn. pose proof (construct_segments Separator key) as C.
  rewrite E in C. destruct C as (_ & Hs & ->).
  rewrite collect_firstn. cbn [tokens_].
  rewrite firstn_all2.
  - apply segments_join.
  - pose proof (segments_at_most_length Separator key Hs). lia.
Qed.

Lemma next_round_trip_witness :
  exists t, construct "." "a.bc.d" = inr t
            /\ String.concat "." (collect 6 t) = "a.bc.d".
Proof.
  assert (E : construct "." "a.bc.d"
              = inr {| key_ := "a.bc.d"; token_ := EmptyString;
                       tokens_ := ["a"; "bc"; "d"]%string |})
    by (vm_compute; reflexivity).
  eexists. split; [exact E|].
  exact (next_round_trip "." "a.bc.d" _ 6 E (le_n 6)).
Defined.

(** The loop never touches [key_], and the only exception it raises is the
    one of [saveToken()], which quotes [key_]. *)
Lemma scan_key (Separator : ascii) (cs : string) :
  forall t : Tokenizer,
    match scan Separator cs t with
    | inl e => e = mkKeyException ("Empty token in key '" ++ key_ t ++ "'.")
    | inr t' => key_ t' = key_ t
    end.
Proof.
  induction cs as [|c cs IH]; intros t; simpl; [reflexivity|].
  destruct (Ascii.eqb c Separator).
  - unfold saveToken. destruct (empty (token_ t)); [reflexivity|].
    apply (IH {| key_ := key_ t; token_ := EmptyString;
                 tokens_ := tokens_ t ++ [token_ t] |}).
  - apply (IH {| key_ := key_ t;
                 token_ := (token_ t ++ String c EmptyString)%string;
                 tokens_ := tokens_ t |}).
Qed.

(** X3.  The exception of a rejected key says why: ["Empty key"] for the
    empty key, and otherwise ["Empty token in key '<key>'."] with the whole
    key as it was passed in. *)
Theorem construct_exception (Separator : ascii) (key : string) (e : KeyException) :
  construct Separator key = inl e ->
  e = mkKeyException
        (if empty key then "Empty key"
         else "Empty token in key '" ++ key ++ "'.").
Proof.
  unfold construct. destruct (empty key); [now intros [= <-]|].
  pose proof (scan_key Separator key
                {| key_ := key; token_ := EmptyString; tokens_ := [] |}) as S.
  destruct (scan Separator key _) as [e'|t']; cbn [key_] in S.
  - intros [= <-]. exact S.
  - unfold saveToken. rewrite S. destruct (empty (token_ t')); [|discriminate].
    now intros [= <-].
Qed.

Lemma construct_exception_witness :
  exists e, construct "." "a..b" = inl e
            /\ e = mkKeyException "Empty token in key 'a..b'.".
Proof.
  assert (E : construct "." "a..b"
              = inl (mkKeyException "Empty token in key 'a..b'."))
    by (vm_compute; reflexivity).
  eexists. split; [exact E|].
  exact (construct_exception "." "a..b" _ E).
Defined.

Lemma segments_without_separator (Separator : ascii) (s : string) :
  has_char Separator s = false -> segments Separator s = [s].
Proof.
  induction s as [|c s IH]; simpl; [reflexivity|].
  destruct (Ascii.eqb c Separator); simpl; [discriminate|].
  intros Hc. now rewrite (IH Hc).
Qed.

(** X4.  A non-empty key without any separator is a single token, the key
    itself. *)
Theorem single_token (Separator : ascii) (key : string) :
  key <> EmptyString ->
  has_char Separator key = false ->
  construct Separator key
  = inr {| key_ := key; token_ := EmptyString; tokens_ := [key] |}.
Proof.
  intros Hk Hc. pose proof (construct_segments Separator key) as C.
  rewrite (segments_without_separator _ _ Hc) in C.
  destruct (construct Separator key) as [e|t].
  - destruct C as [K|[K|[]]]; [elim (Hk K) | elim Hk; now symmetry].
  - destruct C as (_ & _ & ->). reflexivity.
Qed.

Lemma single_token_witness :
  construct "." "workers"
  = inr {| key_ := "workers"; token_ := EmptyString; tokens_ := ["workers"] |}.
Proof.
  apply (single_token "." "workers"); [discriminate | reflexivity].
Defined.

Lemma segments_app (Separator : ascii) (k1 k2 : string) :
  segments Separator (k1 ++ String Separator k2)
  = segments Separator k1 ++ segments Separator k2.
Proof.
  induction k1 as [|c k1 IH]; simpl.
  - now rewrite Ascii.eqb_refl.
  - destruct (Ascii.eqb c Separator); rewrite IH; [reflexivity|].
    pose proof (segments_nonempty Separator k1) as N.
    destruct (segments Separator k1) as [|seg rest]; [now elim N|]. reflexivity.
Qed.

(** X5.  A key made of two keys with a separator between them is accepted
    exactly when both are, and its tokens are then those of the first
    followed by those of the second. *)
Theorem construct_append (Separator : ascii) (k1 k2 : string) :
  match construct Separator k1, construct Separator k2 with
  | inr t1, inr t2 =>
      construct Separator (k1 ++ String Separator k2)
      = inr {| key_ := (k1 ++ String Separator k2)%string;
               token_ := EmptyString;
               tokens_ := tokens_ t1 ++ tokens_ t2 |}
  | _, _ => exists e, construct Separator (k1 ++ String Separator k2) = inl e
  end.
Proof.
  pose proof (construct_segments Separator k1) as C1.
  pose proof (construct_segments Separator k2) as C2.
  pose proof (construct_segments Separator (k1 ++ String Separator k2)) as C.
  rewrite segments_app in C.
  assert (E1 : k1 = EmptyString -> In EmptyString (segments Separator k1))
    by (intros ->; now left).
  assert (E2 : k2 = EmptyString -> In EmptyString (segments Separator k2))
    by (intros ->; now left).
  destruct (construct Separator (k1 ++ String Separator k2)) as [e|t].
  - destruct (construct Separator k1) as [e1|t1];
      [now exists e|].
    destruct (construct Separator k2) as [e2|t2]; [now exists e|].
    destruct C1 as (_ & N1 & _), C2 as (_ & N2 & _). exfalso.
    destruct C as [K|K].
    + destruct k1; discriminate K.
    + apply in_app_or in K. tauto.
  - destruct C as (_ & N & ->).
    assert (N1 : ~ In EmptyString (segments Separator k1))
      by (intros I; apply N, in_or_app; now left).
    assert (N2 : ~ In EmptyString (segments Separator k2))
      by (intros I; apply N, in_or_app; now right).
    destruct (construct Separator k1) as [e1|t1]; [tauto|].
    destruct (construct Separator k2) as [e2|t2]; [tauto|].
    destruct C1 as (_ & _ & ->), C2 as (_ & _ & ->). reflexivity.
Qed.

End ConfigMore.

(* ===================================================================== *)
(** * Part IX.  More about the [amm_info] handler                         *)
(* ===================================================================== *)

Module AMMInfoMore.

Import Ripple Backend AMMInfo AMMInfoFacts.
Local Open Scope Z_scope.

Section More.

Variable P : Protocol.
Variable H : RPCHelpers.
Variable backend : BackendInterface.

Ltac unfold_handler :=
  unfold process, getAmmPoolHolds, getAmmLpHolds, getAmmLpHolds_currencies,
    fetchLedgerRangeM, getLedgerInfoFromHashOrSeqM, fetchLedgerObjectM,
    accountHoldsM, isFrozenM, deref, read, bind, ret, fail, throw, undefined.

(** [process] as a decision tree over the answers of the backend. *)
Lemma process_cases (input : Input) :
  process P H backend input
  = match fetchLedgerRange backend with
    | None => ([RdLedgerRange], Undefined)
    | Some range =>
      let header :=
        [ RdLedgerRange;
          RdLedgerInfo (ledgerHash input) (ledgerIndex input) (maxSequence range) ] in
      match getLedgerInfoFromHashOrSeq H backend (ledgerHash input)
              (ledgerIndex input) (maxSequence range) with
      | inl status => (header, Error status)
      | inr lgrInfo =>
        let ammKey := keylet_amm P (issue1 input) (issue2 input) in
        let checked := header ++ accountCheckReads P input lgrInfo in
        match match accountID input with
              | Some id =>
                  fetchLedgerObject backend (keylet_account P id) (seq lgrInfo)
              | None => Some []
              end with
        | None => (checked, Error (Status_of rpcACT_NOT_FOUND))
        | Some _ =>
          match fetchLedgerObject backend ammKey (seq lgrInfo) with
          | None =>
              (checked ++ [RdObject ammKey (seq lgrInfo)],
               Error (Status_of rpcACT_NOT_FOUND))
          | Some ammBlob =>
            match deserialize P ammBlob ammKey with
            | None => (checked ++ [RdObject ammKey (seq lgrInfo)], Thrown)
            | Some amm =>
              match fetchLedgerObject backend (keylet_account P (sfAccount amm))
                      (seq lgrInfo) with
              | None =>
                  (checked ++ objectReads P input lgrInfo amm,
                   Error (Status_of rpcACT_NOT_FOUND))
              | Some _ =>
                  (successReads P input range lgrInfo amm,
                   Ok (successOutput P H backend input lgrInfo amm))
              end
            end
          end
        end
      end
    end.
Proof.
  unfold_handler.
  destruct (fetchLedgerRange backend) as [range|]; [|reflexivity].
  cbv beta iota zeta.
  destruct (getLedgerInfoFromHashOrSeq H backend _ _ _) as [st|lgrInfo];
    [reflexivity|].
  set (ammKey := keylet_amm P (issue1 input) (issue2 input)).
  unfold successReads, accountCheckReads, lpHoldsReads, frozenReads, frozenRead,
    successOutput, frozenFlag, lpTokenAmount, objectReads, poolHoldsReads, lpHoldsRead.
  fold ammKey.
  destruct (accountID input) as [id|];
    [ destruct (fetchLedgerObject backend (keylet_account P id) (seq lgrInfo));
      cbv beta iota zeta; [|reflexivity] | ];
    (destruct (fetchLedgerObject backend ammKey (seq lgrInfo)) as [ammBlob|];
     cbv beta iota zeta; [|reflexivity]);
    (destruct (deserialize P ammBlob ammKey) as [amm|];
     cbv beta iota zeta; [|reflexivity]);
    (destruct (fetchLedgerObject backend (keylet_account P (sfAccount amm))
                 (seq lgrInfo));
     cbv beta iota zeta; [|reflexivity]);
    rewrite !accountHolds_isXRP;
    destruct (isXRP (currency (issue1 input)));
    destruct (isXRP (currency (issue2 input))); reflexivity.
Qed.

(** X6.  With a known range, [process] returns a response exactly when
    the ledger header resolves, the account of the filter (if any) has an
    object at the resolved sequence, the AMM object is there and decodes,
    and the AMM's own account has an object too. *)
Theorem response_iff_all_lookups_succeed (input : Input) (range : LedgerRange) :
  fetchLedgerRange backend = Some range ->
  ((exists log output, process P H backend input = (log, Ok output))
   <-> (exists lgrInfo ammBlob amm accBlob,
          getLedgerInfoFromHashOrSeq H backend (ledgerHash input)
            (ledgerIndex input) (maxSequence range) = inr lgrInfo
          /\ (forall id, accountID input = Some id ->
              exists blob,
                fetchLedgerObject backend (keylet_account P id) (seq lgrInfo)
                = Some blob)
          /\ fetchLedgerObject backend (keylet_amm P (issue1 input) (issue2 input))
               (seq lgrInfo) = Some ammBlob
          /\ deserialize P ammBlob (keylet_amm P (issue1 input) (issue2 input))
             = Some amm
          /\ fetchLedgerObject backend (keylet_account P (sfAccount amm))
               (seq lgrInfo) = Some accBlob)).
Proof.
  intros ER. split.
  - intros (log & output & E).
    destruct (process_Ok_inv P H backend input log output E)
      as (range' & lgrInfo & ammBlob & amm & accBlob
          & ER' & EL & EA & EB & ED & EC & _).
    assert (range' = range) as -> by congruence.
    exists lgrInfo, ammBlob, amm, accBlob. repeat split; assumption.
  - intros (lgrInfo & ammBlob & amm & accBlob & EL & EA & EB & ED & EC).
    eexists. eexists.
    exact (process_success P H backend input range lgrInfo ammBlob amm accBlob
             ER EL EA EB ED EC).
Qed.

(** X7.  With a known range, in every run, whatever its outcome, each
    read that takes a sequence takes the sequence of the header resolved
    for this request. *)
Theorem every_read_at_resolved_sequence (input : Input) (range : LedgerRange)
    (log : list Read) (result : Res Output) :
  fetchLedgerRange backend = Some range ->
  process P H backend input = (log, result) ->
  forall r s,
    In r log -> read_sequence r = Some s ->
    exists lgrInfo,
      getLedgerInfoFromHashOrSeq H backend (ledgerHash input)
        (ledgerIndex input) (maxSequence range) = inr lgrInfo
      /\ s = seq lgrInfo.
Proof.
  intros ER. rewrite process_cases, ER. cbv zeta.
  destruct (getLedgerInfoFromHashOrSeq H backend _ _ _) as [st|lgrInfo] eqn:EL.
  { intros [= <- _] r s [<-|[<-|[]]] Hs; discriminate Hs. }
  assert (Pinned : forall log',
             Forall (fun r => read_sequence r = None
                              \/ read_sequence r = Some (seq lgrInfo)) log' ->
             forall r s, In r log' -> read_sequence r = Some s ->
             exists lgrInfo0,
               @inr Status LedgerInfo lgrInfo = inr lgrInfo0
               /\ s = seq lgrInfo0).
  { intros log' F r s Hin Hs. rewrite Forall_forall in F.
    exists lgrInfo. split; [reflexivity|].
    destruct (F r Hin) as [N|S]; congruence. }
  assert (Checked : Forall (fun r => read_sequence r = None
                                     \/ read_sequence r = Some (seq lgrInfo))
                      (accountCheckReads P input lgrInfo)).
  { unfold accountCheckReads. destruct (accountID input); simpl;
      repeat (apply Forall_cons || apply Forall_nil); simpl; auto. }
  destruct (match accountID input with
            | Some id => fetchLedgerObject backend (keylet_account P id) (seq lgrInfo)
            | None => Some []
            end).
  2:{ intros [= <- _]. apply Pinned.
      repeat (apply Forall_cons; [simpl; auto|]). exact Checked. }
  destruct (fetchLedgerObject backend _ (seq lgrInfo)) as [ammBlob|].
  2:{ intros [= <- _]. apply Pinned.
      repeat (apply Forall_cons; [simpl; auto|]).
      apply Forall_app. split; [exact Checked|].
      repeat (apply Forall_cons || apply Forall_nil); simpl; auto. }
  destruct (deserialize P ammBlob _) as [amm|].
  2:{ intros [= <- _]. apply Pinned.
      repeat (apply Forall_cons; [simpl; auto|]).
      apply Forall_app. split; [exact Checked|].
      repeat (apply Forall_cons || apply Forall_nil); simpl; auto. }
  destruct (fetchLedgerObject backend (keylet_account P (sfAccount amm)) _).
  - intros [= <- _]. apply Pinned. apply successReads_pinned.
  - intros [= <- _]. apply Pinned.
    repeat (apply Forall_cons; [simpl; auto|]).
    apply Forall_app. split; [exact Checked|].
    unfold objectReads.
    repeat (apply Forall_cons || apply Forall_nil); simpl; auto.
Qed.

(** X8.  With a known range, a run that does not end in a response has
    made at most five reads, and none of them is a balance or freeze
    read: those are made only once every object lookup has succeeded. *)
Theorem failed_run_reads_no_balance (input : Input) (range : LedgerRange)
    (log : list Read) (result : Res Output) :
  fetchLedgerRange backend = Some range ->
  process P H backend input = (log, result) ->
  (forall output, result <> Ok output) ->
  (List.length log <= 5)%nat
  /\ Forall (fun r => is_balance_read r = false) log.
Proof.
  intros ER. rewrite process_cases, ER. cbv zeta.
  unfold accountCheckReads, objectReads.
  destruct (getLedgerInfoFromHashOrSeq H backend _ _ _) as [st|lgrInfo].
  { intros [= <- _] _. simpl. split; [lia|]. repeat constructor. }
  destruct (accountID input) as [id|];
    [destruct (fetchLedgerObject backend (keylet_account P id) (seq lgrInfo))|];
    try (intros [= <- _] _; simpl; split; [lia | repeat constructor]);
    (destruct (fetchLedgerObject backend _ (seq lgrInfo)) as [ammBlob|];
     [|intros [= <- _] _; simpl; split; [lia | repeat constructor]]);
    (destruct (deserialize P ammBlob _) as [amm|];
     [|intros [= <- _] _; simpl; split; [lia | repeat constructor]]);
    (destruct (fetchLedgerObject backend (keylet_account P (sfAccount amm)) _);
     [|intros [= <- _] _; simpl; split; [lia | repeat constructor]]);
    intros [= _ <-] N; elim (N _ eq_refl).
Qed.

(** X9.  When no AMM object is stored for the asset pair at the resolved
    sequence the request ends with [rpcACT_NOT_FOUND], with or without an
    account filter and whether or not the filter's account exists; the
    AMM lookup is then the last read at most. *)
Theorem missing_amm_is_not_found (input : Input) (range : LedgerRange)
    (lgrInfo : LedgerInfo) :
  fetchLedgerRange backend = Some range ->
  getLedgerInfoFromHashOrSeq H backend (ledgerHash input) (ledgerIndex input)
    (maxSequence range) = inr lgrInfo ->
  fetchLedgerObject backend (keylet_amm P (issue1 input) (issue2 input))
    (seq lgrInfo) = None ->
  exists log,
    process P H backend input = (log, Error (Status_of rpcACT_NOT_FOUND))
    /\ incl log
         ([ RdLedgerRange;
            RdLedgerInfo (ledgerHash input) (ledgerIndex input) (maxSequence range) ]
          ++ accountCheckReads P input lgrInfo
          ++ [RdObject (keylet_amm P (issue1 input) (issue2 input)) (seq lgrInfo)]).
Proof.
  intros ER EL EB. rewrite process_cases, ER. cbv zeta. rewrite EL, EB.
  destruct (match accountID input with
            | Some id => fetchLedgerObject backend (keylet_account P id) (seq lgrInfo)
            | None => Some []
            end);
    eexists; (split; [reflexivity|]).
  - rewrite <- app_assoc. apply incl_refl.
  - rewrite app_assoc. apply incl_appl, incl_refl.
Qed.

(** X10.  The account filter changes nothing in the response but the
    LP-token amount: when a request with a filter is answered, the same
    request without it is answered too, with the same reads less the two
    made for the holder and with every other field of the response
    equal. *)
Theorem account_filter_only_changes_lp_token (input : Input) (log : list Read)
    (output : Output) :
  process P H backend input = (log, Ok output) ->
  exists log' output',
    process P H backend (withoutAccount input) = (log', Ok output')
    /\ incl log' log
    /\ List.length log
       = (List.length log'
          + match accountID input with Some _ => 2 | None => 0 end)%nat
    /\ amount1 output' = amount1 output
    /\ amount2 output' = amount2 output
    /\ voteSlots output' = voteSlots output
    /\ auctionSlot output' = auctionSlot output
    /\ tradingFee output' = tradingFee output
    /\ ammAccount output' = ammAccount output
    /\ ammID output' = ammID output
    /\ asset1Frozen output' = asset1Frozen output
    /\ asset2Frozen output' = asset2Frozen output
    /\ ledgerIndex_ output' = ledgerIndex_ output
    /\ validated output' = validated output.
Proof.
  intros E.
  destruct (process_Ok_inv P H backend input log output E)
    as (range & lgrInfo & ammBlob & amm & accBlob
        & ER & EL & EA & EB & ED & EC & -> & ->).
  exists (successReads P (withoutAccount input) range lgrInfo amm),
         (successOutput P H backend (withoutAccount input) lgrInfo amm).
  split.
  - apply (process_success P H backend (withoutAccount input) range lgrInfo
             ammBlob amm accBlob); try assumption.
    intros id N. discriminate N.
  - split; [|split; [|repeat split]].
    + unfold successReads, accountCheckReads, lpHoldsReads, objectReads,
        poolHoldsReads, frozenReads. cbn [withoutAccount accountID issue1 issue2
                                           ledgerHash ledgerIndex].
      intros r Hin. simpl in Hin. repeat rewrite in_app_iff. simpl.
      repeat rewrite in_app_iff in Hin. simpl in Hin. tauto.
    + unfold successReads, accountCheckReads, lpHoldsReads, objectReads,
        poolHoldsReads, frozenReads. cbn [withoutAccount accountID issue1 issue2
                                           ledgerHash ledgerIndex].
      destruct (accountID input); simpl; repeat rewrite length_app; simpl; lia.
Qed.

(** X11.  A run that returns a response makes six reads, two more when an
    account filter is given, and one more for each asset that is not
    native. *)
Theorem reads_of_a_response (input : Input) (log : list Read) (output : Output) :
  process P H backend input = (log, Ok output) ->
  List.length log
  = (6 + match accountID input with Some _ => 2 | None => 0 end
     + (if isXRP (currency (issue1 input)) then 0 else 1)
     + (if isXRP (currency (issue2 input)) then 0 else 1))%nat.
Proof.
  intros E.
  destruct (process_Ok_inv P H backend input log output E)
    as (range & lgrInfo & ammBlob & amm & accBlob & _ & _ & _ & _ & _ & _ & -> & _).
  unfold successReads, accountCheckReads, lpHoldsReads, objectReads,
    poolHoldsReads, frozenReads, frozenRead.
  destruct (accountID input), (isXRP (currency (issue1 input))),
    (isXRP (currency (issue2 input))); reflexivity.
Qed.

(** X12.  With a known range and a resolved header, an exception leaves
    the handler exactly when the AMM object is there but does not decode
    (and the account of the filter, if any, exists): nothing in [process]
    turns that into an error status. *)
Theorem undecodable_amm_throws (input : Input) (range : LedgerRange)
    (lgrInfo : LedgerInfo) :
  fetchLedgerRange backend = Some range ->
  getLedgerInfoFromHashOrSeq H backend (ledgerHash input) (ledgerIndex input)
    (maxSequence range) = inr lgrInfo ->
  (snd (process P H backend input) = Thrown
   <-> (forall id, accountID input = Some id ->
        fetchLedgerObject backend (keylet_account P id) (seq lgrInfo) <> None)
       /\ exists ammBlob,
            fetchLedgerObject backend (keylet_amm P (issue1 input) (issue2 input))
              (seq lgrInfo) = Some ammBlob
            /\ deserialize P ammBlob (keylet_amm P (issue1 input) (issue2 input))
               = None).
Proof.
  intros ER EL. rewrite process_cases, ER. cbv zeta. rewrite EL.
  set (ammKey := keylet_amm P (issue1 input) (issue2 input)).
  destruct (accountID input) as [id|].
  - destruct (fetchLedgerObject backend (keylet_account P id) (seq lgrInfo))
      as [blob|] eqn:EI.
    + destruct (fetchLedgerObject backend ammKey (seq lgrInfo)) as [ammBlob|].
      * destruct (deserialize P ammBlob ammKey) as [amm|] eqn:ED.
        -- destruct (fetchLedgerObject backend (keylet_account P (sfAccount amm)) _);
             simpl; (split; [discriminate|]);
             intros (_ & ammBlob' & [= <-] & N); congruence.
        -- simpl. split; [|reflexivity]. intros _. split.
           ++ intros id' [= <-]. congruence.
           ++ now exists ammBlob.
      * simpl. split; [discriminate|]. intros (_ & ammBlob' & N & _). discriminate N.
    + simpl. split; [discriminate|]. intros (A & _). elim (A id eq_refl EI).
  - destruct (fetchLedgerObject backend ammKey (seq lgrInfo)) as [ammBlob|].
    + destruct (deserialize P ammBlob ammKey) as [amm|] eqn:ED.
      * destruct (fetchLedgerObject backend (keylet_account P (sfAccount amm)) _);
          simpl; (split; [discriminate|]);
          intros (_ & ammBlob' & [= <-] & N); congruence.
      * simpl. split; [|reflexivity]. intros _. split.
        -- intros id' N. discriminate N.
        -- now exists ammBlob.
    + simpl. split; [discriminate|]. intros (_ & ammBlob' & N & _). discriminate N.
Qed.

(** ** The serialized response *)

(** Every member [tag_invoke] may write into the [amm] object, read
    back. *)
Lemma ammObject_read (output : Output) :
  at_key (ammObject output) "lp_token" = Some (lpToken output)
  /\ at_key (ammObject output) "amount" = Some (amount1 output)
  /\ at_key (ammObject output) "amount2" = Some (amount2 output)
  /\ at_key (ammObject output) "account" = Some (JString (ammAccount output))
  /\ at_key (ammObject output) "trading_fee" = Some (JUInt64 (tradingFee output))
  /\ at_key (ammObject output) "auction_slot"
     = (if is_null (auctionSlot output) then None else Some (auctionSlot output))
  /\ at_key (ammObject output) "vote_slots"
     = match voteSlots output with
       | [] => None
       | _ :: _ => Some (JArray (voteSlots output))
       end
  /\ at_key (ammObject output) "asset_frozen"
     = option_map JBool (asset1Frozen output)
  /\ at_key (ammObject output) "asset2_frozen"
     = option_map JBool (asset2Frozen output).
Proof.
  unfold ammObject.
  destruct (is_null (auctionSlot output)), (voteSlots output),
    (asset1Frozen output), (asset2Frozen output); repeat split; reflexivity.
Qed.

Lemma is_null_true (j : json) : is_null j = true -> j = JNull.
Proof. destruct j; simpl; intros E; [reflexivity | discriminate E ..]. Qed.

(** X13.  Two responses serialize to the same JSON exactly when they agree
    on every field but [ammID]: the JSON determines all the other fields,
    and [ammID], although [process] fills it, is never written. *)
Theorem response_json_determines_output (o1 o2 : Output) :
  Output_to_json o1 = Output_to_json o2 <-> with_ammID o1 (ammID o2) = o2.
Proof.
  split.
  - unfold Output_to_json. intros E. injection E as EA EL EV.
    destruct (ammObject_read o1) as (L1 & A1 & B1 & C1 & F1 & S1 & V1 & X1 & Y1).
    destruct (ammObject_read o2) as (L2 & A2 & B2 & C2 & F2 & S2 & V2 & X2 & Y2).
    rewrite EA in L1, A1, B1, C1, F1, S1, V1, X1, Y1.
    rewrite L2 in L1. rewrite A2 in A1. rewrite B2 in B1. rewrite C2 in C1.
    rewrite F2 in F1. rewrite S2 in S1. rewrite V2 in V1. rewrite X2 in X1.
    rewrite Y2 in Y1. clear L2 A2 B2 C2 F2 S2 V2 X2 Y2 EA.
    destruct o1 as [a1 b1 l1 v1 s1 f1 c1 i1 x1 y1 n1 d1],
             o2 as [a2 b2 l2 v2 s2 f2 c2 i2 x2 y2 n2 d2].
    unfold with_ammID; cbn in *.
    assert (s1 = s2).
    { destruct (is_null s1) eqn:N1, (is_null s2) eqn:N2; try discriminate S1.
      - now rewrite (is_null_true _ N1), (is_null_true _ N2).
      - now injection S1 as <-. }
    assert (v1 = v2).
    { destruct v1, v2; try discriminate V1; [reflexivity|].
      now injection V1 as <- <-. }
    assert (x1 = x2) by (destruct x1, x2; simpl in X1; congruence).
    assert (y1 = y2) by (destruct y1, y2; simpl in Y1; congruence).
    congruence.
  - intros <-. reflexivity.
Qed.

(** X14.  A response has a [vote_slots] member exactly when the decoded
    entry has an [sfVoteSlots] array with at least one entry; the member
    then lists the entries in stored order, each with its account, trading
    fee and vote weight.  A stored but empty array gives no member. *)
Theorem vote_slots_member (input : Input) (log : list Read) (output : Output) :
  process P H backend input = (log, Ok output) ->
  exists range lgrInfo ammBlob amm,
    fetchLedgerRange backend = Some range
    /\ getLedgerInfoFromHashOrSeq H backend (ledgerHash input)
         (ledgerIndex input) (maxSequence range) = inr lgrInfo
    /\ fetchLedgerObject backend (keylet_amm P (issue1 input) (issue2 input))
         (seq lgrInfo) = Some ammBlob
    /\ deserialize P ammBlob (keylet_amm P (issue1 input) (issue2 input)) = Some amm
    /\ amm_at (Output_to_json output) "vote_slots"
       = match sfVoteSlots amm with
         | Some (entry :: entries) =>
             Some (JArray
                     (map (fun vote =>
                             JObject
                               [ ("account",
                                  JString (accountToString P (vote_sfAccount vote)));
                                 ("trading_fee", JUInt64 (vote_sfTradingFee vote));
                                 ("vote_weight", JUInt64 (vote_sfVoteWeight vote)) ])
                          (entry :: entries)))
         | _ => None
         end.
Proof.
  intros E.
  destruct (process_Ok_inv P H backend input log output E)
    as (range & lgrInfo & ammBlob & amm & accBlob
        & ER & EL & _ & EB & ED & _ & _ & ->).
  exists range, lgrInfo, ammBlob, amm.
  split; [exact ER|]. split; [exact EL|]. split; [exact EB|]. split; [exact ED|].
  change (amm_at (Output_to_json (successOutput P H backend input lgrInfo amm))
            "vote_slots")
    with (at_key (ammObject (successOutput P H backend input lgrInfo amm))
            "vote_slots").
  destruct (ammObject_read (successOutput P H backend input lgrInfo amm))
    as (_ & _ & _ & _ & _ & _ & -> & _).
  cbn [successOutput voteSlots]. unfold voteSlotsJson.
  destruct (sfVoteSlots amm) as [[|entry entries]|]; reflexivity.
Qed.

(** X15.  When a response carries [asset_frozen] (or [asset2_frozen]) its
    value is the answer of [isFrozen] for the AMM's account and that
    asset's currency and issuer at the resolved sequence. *)
Theorem frozen_members_value (input : Input) (log : list Read) (output : Output) :
  process P H backend input = (log, Ok output) ->
  exists range lgrInfo ammBlob amm,
    fetchLedgerRange backend = Some range
    /\ getLedgerInfoFromHashOrSeq H backend (ledgerHash input)
         (ledgerIndex input) (maxSequence range) = inr lgrInfo
    /\ fetchLedgerObject backend (keylet_amm P (issue1 input) (issue2 input))
         (seq lgrInfo) = Some ammBlob
    /\ deserialize P ammBlob (keylet_amm P (issue1 input) (issue2 input)) = Some amm
    /\ amm_at (Output_to_json output) "asset_frozen"
       = (if isXRP (currency (issue1 input)) then None
          else Some (JBool (isFrozen H backend (seq lgrInfo) (sfAccount amm)
                              (currency (issue1 input)) (account (issue1 input)))))
    /\ amm_at (Output_to_json output) "asset2_frozen"
       = (if isXRP (currency (issue2 input)) then None
          else Some (JBool (isFrozen H backend (seq lgrInfo) (sfAccount amm)
                              (currency (issue2 input)) (account (issue2 input))))).
Proof.
  intros E.
  destruct (process_Ok_inv P H backend input log output E)
    as (range & lgrInfo & ammBlob & amm & accBlob
        & ER & EL & _ & EB & ED & _ & _ & ->).
  exists range, lgrInfo, ammBlob, amm.
  split; [exact ER|]. split; [exact EL|]. split; [exact EB|]. split; [exact ED|].
  change (amm_at (Output_to_json (successOutput P H backend input lgrInfo amm)))
    with (at_key (ammObject (successOutput P H backend input lgrInfo amm))).
  destruct (ammObject_read (successOutput P H backend input lgrInfo amm))
    as (_ & _ & _ & _ & _ & _ & _ & -> & ->).
  cbn [successOutput asset1Frozen asset2Frozen]. unfold frozenFlag.
  destruct (isXRP (currency (issue1 input))),
    (isXRP (currency (issue2 input))); split; reflexivity.
Qed.

(** X16.  The [auction_slot] of a response carries the stored price,
    discounted fee and account of the slot, the expiration formatted by
    [date::format] after the Ripple epoch offset is added, and an
    [auth_accounts] array exactly when the slot has an [sfAuthAccounts]
    field, with one [account] object per stored account in order; a
    stored but empty field gives an empty array. *)
Theorem auction_slot_members (input : Input) (log : list Read) (output : Output) :
  process P H backend input = (log, Ok output) ->
  exists range lgrInfo ammBlob amm,
    fetchLedgerRange backend = Some range
    /\ getLedgerInfoFromHashOrSeq H backend (ledgerHash input)
         (ledgerIndex input) (maxSequence range) = inr lgrInfo
    /\ fetchLedgerObject backend (keylet_amm P (issue1 input) (issue2 input))
         (seq lgrInfo) = Some ammBlob
    /\ deserialize P ammBlob (keylet_amm P (issue1 input) (issue2 input)) = Some amm
    /\ forall slot slotAccount,
         sfAuctionSlot amm = Some slot ->
         slot_sfAccount slot = Some slotAccount ->
         exists auction,
           amm_at (Output_to_json output) "auction_slot" = Some (JObject auction)
           /\ at_key auction "price" = Some (amountJson P (slot_sfPrice slot))
           /\ at_key auction "discounted_fee"
              = Some (JUInt64 (slot_sfDiscountedFee slot))
           /\ at_key auction "account"
              = Some (JString (accountToString P slotAccount))
           /\ at_key auction "expiration"
              = Some (JString (date_format P "%Y-%Om-%dT%H:%M:%OS%z"
                                 (slot_sfExpiration slot + rippleEpochStart P)))
           /\ at_key auction "auth_accounts"
              = match slot_sfAuthAccounts slot with
                | Some accts =>
                    Some (JArray
                            (map (fun acct =>
                                    JObject
                                      [("account",
                                        JString (accountToString P acct))])
                                 accts))
                | None => None
                end.
Proof.
  intros E.
  destruct (process_Ok_inv P H backend input log output E)
    as (range & lgrInfo & ammBlob & amm & accBlob
        & ER & EL & _ & EB & ED & _ & _ & ->).
  exists range, lgrInfo, ammBlob, amm.
  split; [exact ER|]. split; [exact EL|]. split; [exact EB|]. split; [exact ED|].
  intros slot slotAccount ES EA.
  change (amm_at (Output_to_json (successOutput P H backend input lgrInfo amm))
            "auction_slot")
    with (at_key (ammObject (successOutput P H backend input lgrInfo amm))
            "auction_slot").
  rewrite ammObject_auction_slot.
  cbn [successOutput auctionSlot]. unfold auctionSlotJson. rewrite ES, EA.
  unfold auctionJson, to_iso8601.
  destruct (slot_sfAuthAccounts slot); eexists; repeat split; reflexivity.
Qed.

(** ** The request conversion *)

Lemma contains_at_key (o : object) (key : string) :
  contains o key = match at_key o key with Some _ => true | None => false end.
Proof.
  induction o as [|[k v] o IH]; simpl; [reflexivity|].
  destruct (String.eqb k key); [reflexivity | exact IH].
Qed.

Lemma at_key_set_key_other (o : object) (key key' : string) (v : json) :
  key <> key' -> at_key (set_key o key v) key' = at_key o key'.
Proof.
  intros N. induction o as [|[k w] o IH]; simpl.
  - destruct (String.eqb_spec key key'); [contradiction | reflexivity].
  - destruct (String.eqb_spec k key) as [->|Nk]; simpl.
    + destruct (String.eqb_spec key key'); [contradiction | reflexivity].
    + destruct (String.eqb k key'); [reflexivity | exact IH].
Qed.

Lemma contains_set_key_other (o : object) (key key' : string) (v : json) :
  key <> key' -> contains (set_key o key v) key' = contains o key'.
Proof.
  intros N. now rewrite !contains_at_key, at_key_set_key_other.
Qed.

(** X17.  A converted request has no ledger index when the request has no
    [ledger_index] member or the member is the string ["validated"]; an
    integer member is taken modulo [2^32], any other string goes through
    [std::stoi] and then modulo [2^32], and a member of any other kind makes
    the conversion throw.  A ledger index, when present, is below
    [2^32]. *)
Theorem ledger_index_conversion (jv : json) (input : Input) :
  Input_from_json P jv = Some input ->
  exists jsonObject,
    jv = JObject jsonObject
    /\ match at_key jsonObject "ledger_index" with
       | None => ledgerIndex input = None
       | Some (JInt64 i) => ledgerIndex input = Some (i mod 2 ^ 32)
       | Some (JString s) =>
           if String.eqb s "validated" then ledgerIndex input = None
           else exists i, stoi P (c_str s) = Some i
                          /\ ledgerIndex input = Some (i mod 2 ^ 32)
       | Some _ => False
       end
    /\ forall i, ledgerIndex input = Some i -> 0 <= i < 2 ^ 32.
Proof.
  unfold Input_from_json.
  destruct jv as [| | | | | | |jsonObject]; try discriminate.
  destruct (if contains jsonObject "ledger_hash" then _ else _) as [hash|];
    [|discriminate].
  destruct (getLedgerIndex P jsonObject) as [index|] eqn:EI; [|discriminate].
  destruct (at_key jsonObject "asset") as [asset|]; [|discriminate].
  destruct (getIssue P asset) as [i1|]; [|discriminate].
  destruct (at_key jsonObject "asset2") as [asset2|]; [|discriminate].
  destruct (getIssue P asset2) as [i2|]; [|discriminate].
  destruct (if contains jsonObject "account" then _ else _) as [acct|];
    [|discriminate].
  intros [= <-]. cbn [ledgerIndex]. exists jsonObject. split; [reflexivity|].
  unfold getLedgerIndex in EI. rewrite contains_at_key in EI.
  assert (Range : forall z, 0 <= z mod 2 ^ 32 < 2 ^ 32)
    by (intros z; apply Z.mod_pos_bound; reflexivity).
  destruct (at_key jsonObject "ledger_index") as [[| | i | | | s | |]|];
    try discriminate EI.
  - injection EI as <-. split; [reflexivity|].
    intros z [= <-]. apply Range.
  - destruct (String.eqb s "validated"); simpl in EI.
    + injection EI as <-. split; [reflexivity | discriminate].
    + destruct (stoi P (c_str s)) as [i|]; [|discriminate EI].
      injection EI as <-. split; [now exists i|].
      intros z [= <-]. apply Range.
  - injection EI as <-. split; [reflexivity | discriminate].
Qed.

(** X18.  A request converts only if it is an object whose [asset] and
    [asset2] members are objects with a string [currency].  Each asset of
    the converted request has the currency [to_currency] makes of that
    string and the native account as issuer; the ledger hash is the
    [ledger_hash] string if there is one; the account filter is what
    [accountFromStringStrict] makes of the [account] string, so a string
    that is not an address gives no filter rather than an error. *)
Theorem converted_request (jv : json) (input : Input) :
  Input_from_json P jv = Some input ->
  exists jsonObject asset asset2 code code2,
    jv = JObject jsonObject
    /\ at_key jsonObject "asset" = Some (JObject asset)
    /\ at_key asset "currency" = Some (JString code)
    /\ at_key jsonObject "asset2" = Some (JObject asset2)
    /\ at_key asset2 "currency" = Some (JString code2)
    /\ issue1 input
       = {| currency := snd (to_currency P xrpCurrency (c_str code));
            account := xrpAccount |}
    /\ issue2 input
       = {| currency := snd (to_currency P xrpCurrency (c_str code2));
            account := xrpAccount |}
    /\ ledgerHash input
       = match at_key jsonObject "ledger_hash" with
         | Some (JString s) => Some (c_str s)
         | _ => None
         end
    /\ accountID input
       = match at_key jsonObject "account" with
         | Some (JString s) => accountFromStringStrict P (c_str s)
         | _ => None
         end.
Proof.
  assert (Issue_of : forall request i,
             getIssue P request = Some i ->
             exists members code,
               request = JObject members
               /\ at_key members "currency" = Some (JString code)
               /\ i = {| currency := snd (to_currency P xrpCurrency (c_str code));
                         account := xrpAccount |}).
  { intros request i. unfold getIssue.
    destruct request as [| | | | | | |members]; try discriminate.
    destruct (at_key members "currency") as [[| | | | |code| |]|] eqn:EC;
      try discriminate.
    cbn [currency account xrpIssue].
    destruct (to_currency P xrpCurrency (c_str code)) as [ok cur] eqn:ET.
    intros [= <-]. exists members, code.
    split; [reflexivity|]. split; [exact EC|]. now rewrite ET. }
  unfold Input_from_json.
  destruct jv as [| | | | | | |jsonObject]; try discriminate.
  rewrite !contains_at_key.
  destruct (at_key jsonObject "ledger_hash") as [[| | | | |h| |]|] eqn:EH;
    try discriminate;
    (destruct (getLedgerIndex P jsonObject) as [index|]; [|discriminate]);
    (destruct (at_key jsonObject "asset") as [asset|] eqn:EA1; [|discriminate]);
    (destruct (getIssue P asset) as [i1|] eqn:E1; [|discriminate]);
    (destruct (at_key jsonObject "asset2") as [asset2|] eqn:EA2; [|discriminate]);
    (destruct (getIssue P asset2) as [i2|] eqn:E2; [|discriminate]);
    destruct (Issue_of _ _ E1) as (m1 & c1 & -> & C1 & ->);
    destruct (Issue_of _ _ E2) as (m2 & c2 & -> & C2 & ->);
    (destruct (at_key jsonObject "account") as [[| | | | |a| |]|] eqn:EAc;
     try discriminate);
    intros [= <-]; exists jsonObject, m1, m2, c1, c2;
    rewrite ?EH, ?EAc; repeat split; (assumption || reflexivity).
Qed.

(** X19.  Only five members of the request are looked at: setting any
    other member changes nothing in the converted request; and of an asset
    descriptor only [currency] is looked at. *)
Theorem other_members_are_ignored (key : string) (v : json) :
  (key <> "currency" ->
   forall members,
     getIssue P (JObject (set_key members key v)) = getIssue P (JObject members))
  /\ (key <> "ledger_hash" -> key <> "ledger_index" -> key <> "asset" ->
      key <> "asset2" -> key <> "account" ->
      forall jsonObject,
        Input_from_json P (JObject (set_key jsonObject key v))
        = Input_from_json P (JObject jsonObject)).
Proof.
  split.
  - intros N members. unfold getIssue. now rewrite at_key_set_key_other.
  - intros N1 N2 N3 N4 N5 jsonObject.
    unfold Input_from_json, getLedgerIndex.
    now rewrite !contains_set_key_other, !at_key_set_key_other.
Qed.

End More.

(** ** Runs on the small ledger *)

Import Fixture.

(** Every lookup of the request without a filter succeeds on the small
    ledger. *)
Lemma response_iff_all_lookups_succeed_witness :
  exists log output,
    process protocol helpers (store [Byte.x01]) (request None) = (log, Ok output).
Proof.
  apply (response_iff_all_lookups_succeed protocol helpers (store [Byte.x01])
           (request None) {| minSequence := 1; maxSequence := 100 |} eq_refl).
  exists {| seq := 100; parentCloseTime := 43200 |}, [Byte.x01],
         (ammEntry (Some ammSlot)), [Byte.x00].
  split; [reflexivity|]. split; [intros id N; discriminate N|].
  repeat split; reflexivity.
Defined.

(** A run that stops at the account lookup reads at sequence 100 only. *)
Lemma every_read_at_resolved_sequence_witness :
  exists log result,
    process protocol helpers (store [Byte.x01]) (request (Some 5)) = (log, result)
    /\ forall r s, In r log -> read_sequence r = Some s -> s = 100.
Proof.
  eexists. eexists. split; [vm_compute; reflexivity|].
  intros r s Hin Hs.
  destruct (every_read_at_resolved_sequence protocol helpers (store [Byte.x01])
              (request (Some 5)) {| minSequence := 1; maxSequence := 100 |}
              _ _ eq_refl eq_refl r s Hin Hs)
    as (lgrInfo & EL & ->).
  vm_compute in EL. injection EL as <-. reflexivity.
Defined.

(** No AMM is stored for the pair (native, native): three reads, none of
    them a balance read. *)
Lemma failed_run_reads_no_balance_witness :
  exists log result,
    process protocol helpers (store [Byte.x01]) (requestPair xrpIssue xrpIssue None)
    = (log, result)
    /\ (List.length log <= 5)%nat
    /\ Forall (fun r => is_balance_read r = false) log.
Proof.
  eexists. eexists. split; [vm_compute; reflexivity|].
  apply (failed_run_reads_no_balance protocol helpers (store [Byte.x01])
           (requestPair xrpIssue xrpIssue None)
           {| minSequence := 1; maxSequence := 100 |} _ _ eq_refl eq_refl).
  intros output N. discriminate N.
Defined.

Lemma missing_amm_is_not_found_witness :
  exists log,
    process protocol helpers (store [Byte.x01])
      (requestPair xrpIssue xrpIssue (Some holderAccount))
    = (log, Error (Status_of rpcACT_NOT_FOUND)).
Proof.
  destruct (missing_amm_is_not_found protocol helpers (store [Byte.x01])
              (requestPair xrpIssue xrpIssue (Some holderAccount))
              {| minSequence := 1; maxSequence := 100 |}
              {| seq := 100; parentCloseTime := 43200 |}
              eq_refl eq_refl eq_refl) as (log & E & _).
  exists log. exact E.
Defined.

(** With and without the holder: nine reads against seven, and the same
    pool amounts. *)
Lemma account_filter_only_changes_lp_token_witness :
  exists log output log' output',
    process protocol helpers (store [Byte.x01]) (request (Some holderAccount))
    = (log, Ok output)
    /\ process protocol helpers (store [Byte.x01])
         (withoutAccount (request (Some holderAccount))) = (log', Ok output')
    /\ List.length log = (List.length log' + 2)%nat
    /\ amount1 output' = amount1 output.
Proof.
  eexists. eexists.
  destruct (account_filter_only_changes_lp_token protocol helpers (store [Byte.x01])
              (request (Some holderAccount)) _ _ eq_refl)
    as (log' & output' & E & _ & L & A & _).
  exists log', output'. split; [reflexivity|]. split; [exact E|].
  split; [exact L | exact A].
Defined.

Lemma reads_of_a_response_witness :
  exists log output,
    process protocol helpers (store [Byte.x01]) (request (Some holderAccount))
    = (log, Ok output)
    /\ List.length log = 9%nat.
Proof.
  eexists. eexists. split; [vm_compute; reflexivity|].
  exact (reads_of_a_response protocol helpers (store [Byte.x01])
           (request (Some holderAccount)) _ _ eq_refl).
Defined.

(** A stored blob that does not decode. *)
Lemma undecodable_amm_throws_witness :
  snd (process protocol helpers (store [Byte.x09]) (request None)) = Thrown.
Proof.
  apply (undecodable_amm_throws protocol helpers (store [Byte.x09]) (request None)
           {| minSequence := 1; maxSequence := 100 |}
           {| seq := 100; parentCloseTime := 43200 |} eq_refl eq_refl).
  split.
  - intros id N. discriminate N.
  - exists [Byte.x09]. split; reflexivity.
Defined.

Lemma vote_slots_member_witness :
  exists log output,
    process protocol helpers (store [Byte.x01]) (request None) = (log, Ok output)
    /\ amm_at (Output_to_json output) "vote_slots"
       = Some (JArray [ JObject [ ("account", JString "r501");
                                  ("trading_fee", JUInt64 600);
                                  ("vote_weight", JUInt64 100000) ] ]).
Proof.
  eexists. eexists. split; [vm_compute; reflexivity|].
  destruct (vote_slots_member protocol helpers (store [Byte.x01]) (request None)
              _ _ eq_refl)
    as (range & lgrInfo & ammBlob & amm & _ & _ & EB & ED & V).
  pose proof (store_amm _ _ _ _ EB ED) as D. injection D as <-.
  exact V.
Defined.

Lemma frozen_members_value_witness :
  exists log output,
    process protocol helpers (store [Byte.x01]) (request None) = (log, Ok output)
    /\ amm_at (Output_to_json output) "asset_frozen" = Some (JBool false)
    /\ amm_at (Output_to_json output) "asset2_frozen" = None.
Proof.
  eexists. eexists. split; [vm_compute; reflexivity|].
  destruct (frozen_members_value protocol helpers (store [Byte.x01]) (request None)
              _ _ eq_refl)
    as (range & lgrInfo & ammBlob & amm & _ & _ & _ & _ & F1 & F2).
  split; [exact F1 | exact F2].
Defined.

Lemma auction_slot_members_witness :
  exists log output auction,
    process protocol helpers (store [Byte.x01]) (request None) = (log, Ok output)
    /\ amm_at (Output_to_json output) "auction_slot" = Some (JObject auction)
    /\ at_key auction "account" = Some (JString "r640")
    /\ at_key auction "discounted_fee" = Some (JUInt64 60)
    /\ at_key auction "auth_accounts"
       = Some (JArray [JObject [("account", JString "r501")]]).
Proof.
  eexists. eexists.
  destruct (auction_slot_members protocol helpers (store [Byte.x01]) (request None)
              _ _ eq_refl)
    as (range & lgrInfo & ammBlob & amm & _ & _ & EB & ED & Slot).
  pose proof (store_amm _ _ _ _ EB ED) as D. injection D as <-.
  destruct (Slot ammSlot bidderAccount eq_refl eq_refl)
    as (auction & EA & _ & EF & EAcc & _ & EAuth).
  exists auction. split; [reflexivity|]. split; [exact EA|].
  split; [exact EAcc|]. split; [exact EF | exact EAuth].
Defined.

(** The integer [-1] as ledger index wraps to [2^32 - 1]. *)
Lemma ledger_index_conversion_witness :
  exists input,
    Input_from_json protocol (requestJsonWith [("ledger_index", JInt64 (-1))])
    = Some input
    /\ ledgerIndex input = Some 4294967295.
Proof.
  eexists. split; [vm_compute; reflexivity|].
  destruct (ledger_index_conversion protocol _ _
              (eq_refl : Input_from_json protocol
                           (requestJsonWith [("ledger_index", JInt64 (-1))])
                         = Some _))
    as (jsonObject & EJ & EI & _).
  injection EJ as <-. exact EI.
Defined.

(** An [account] that is not an address: the request converts, without a
    filter. *)
Lemma converted_request_witness :
  exists input,
    Input_from_json protocol (requestJsonWith [("account", JString "nobody")])
    = Some input
    /\ accountID input = None
    /\ issue1 input = {| currency := USD; account := xrpAccount |}.
Proof.
  eexists. split; [vm_compute; reflexivity|].
  destruct (converted_request protocol _ _
              (eq_refl : Input_from_json protocol
                           (requestJsonWith [("account", JString "nobody")])
                         = Some _))
    as (jsonObject & asset & asset2 & code & code2
        & EJ & EA1 & EC1 & _ & _ & I1 & _ & _ & EAcc).
  injection EJ as <-. split; [exact EAcc|].
  vm_compute in EA1. injection EA1 as <-.
  vm_compute in EC1. injection EC1 as <-. exact I1.
Defined.

(** An [issuer] member changes nothing in the converted asset. *)
Lemma other_members_are_ignored_witness :
  getIssue protocol (JObject [ ("currency", JString "USD");
                               ("issuer", JString "rIssuer") ])
  = getIssue protocol (JObject [ ("currency", JString "USD") ]).
Proof.
  refine (proj1 (other_members_are_ignored protocol "issuer" (JString "rIssuer")) _
            [ ("currency", JString "USD") ]).
  discriminate.
Defined.

End AMMInfoMore.
